(** * ThreadStats: the per-thread statistics collector of mlmd_bench

    A shallow embedding of [ml_metadata/tools/mlmd_bench/stats.cc] and the
    properties of its five methods [Start], [Update], [Stop], [Merge] and
    [Report].

    - [int64] counters are integers of [Z] with the two's complement
      wrap-around written out ([wrap64]).
    - [absl::Duration] and [absl::Time] are counts of quarter-nanosecond
      ticks, the resolution of the absl representation.
    - [double] is IEEE 754 binary64, taken from the Standard Library's
      executable specification [SpecFloat] (precision 53, [emax] 1024,
      round to nearest even).
    - A method is a function of the collector that returns its result, the
      collector afterwards and what it wrote to the streams. *)

From Stdlib Require Import ZArith Lia Bool List String Ascii DecimalString.
From Stdlib Require Import Permutation SpecFloat.
Import ListNotations.

Local Open Scope Z_scope.

(** ** Machine integers *)

Module Int64.

Definition INT64_MIN : Z := - 2 ^ 63.
Definition INT64_MAX : Z := 2 ^ 63 - 1.

(** The values an [int64] holds. *)
Definition in_range (z : Z) : Prop := INT64_MIN <= z <= INT64_MAX.

(** Two's complement reduction of a mathematical result to 64 bits. *)
Definition wrap64 (z : Z) : Z := (z + 2 ^ 63) mod 2 ^ 64 - 2 ^ 63.

(** Clamping to the [int64] range, as the duration quotient does. *)
Definition sat64 (z : Z) : Z := Z.max INT64_MIN (Z.min INT64_MAX z).

Definition add (a b : Z) : Z := wrap64 (a + b).

(** C++ integer division truncates toward zero. *)
Definition div (a b : Z) : Z := wrap64 (Z.quot a b).

End Int64.

(** ** Time

    [absl::Duration] is a signed fixed-point span and [absl::Time] an
    instant, both held with a resolution of a quarter of a nanosecond.  The
    embedding covers their finite values: absl saturates a span at
    [InfiniteDuration], beyond 2^63 seconds, which no run reaches. *)

Module Time.

Definition Duration : Type := Z.
Definition Time : Type := Z.

Definition kTicksPerNanosecond : Z := 4.

Definition Nanoseconds (n : Z) : Duration := n * kTicksPerNanosecond.
Definition Microseconds (n : Z) : Duration := n * (1000 * kTicksPerNanosecond).
Definition Seconds (n : Z) : Duration := n * (1000000000 * kTicksPerNanosecond).

(** A default-constructed [absl::Time] is the Unix epoch. *)
Definition UnixEpoch : Time := 0.

(** [Time - Time]. *)
Definition since (later earlier : Time) : Duration := later - earlier.

(** [Duration / Duration] is [absl::IDivDuration]: the quotient truncated
    to an integer and returned as an [int64], saturated at the ends of its
    range (the fractional quotient is a different function,
    [absl::FDivDuration]). *)
Definition IDivDuration (num den : Duration) : Z :=
  if den =? 0
  then (if num <? 0 then Int64.INT64_MIN else Int64.INT64_MAX)
  else Int64.sat64 (Z.quot num den).

End Time.

(** ** Doubles *)

Module Double.

Definition double : Type := spec_float.

Definition prec : Z := 53.
Definition emax : Z := 1024.

(** Conversion of an integer to [double] (round to nearest even). *)
Definition of_int (z : Z) : double := binary_normalize prec emax z 0 false.

Definition mul : double -> double -> double := SFmul prec emax.
Definition div : double -> double -> double := SFdiv prec emax.

(** The literal [0.0]. *)
Definition zero : double := S754_zero false.

(** The literal [1e-6], bit pattern [0x3EB0C6F7A0B5ED8D]. *)
Definition micro : double := S754_finite false 4722366482869645 (-72).

(** The literal [1024.0]. *)
Definition kilo : double := S754_finite false 4503599627370496 (-42).

Definition pos_infinity : double := S754_infinity false.

End Double.

(** ** Text formatting

    The conversions of [printf] and [absl::StrFormat] that the collector
    uses: [%lld], [%Ns], [%-Ns] and [%N.Pf]. *)

Module Format.

Local Open Scope string_scope.

Definition spaces (n : nat) : string :=
  string_of_list_ascii (repeat " "%char n).

Definition zeros (n : nat) : string :=
  string_of_list_ascii (repeat "0"%char n).

(** [%Ns]: right-justified in a field of at least [width] characters. *)
Definition pad_left (width : nat) (s : string) : string :=
  spaces (width - String.length s) ++ s.

(** [%-Ns]: left-justified in a field of at least [width] characters. *)
Definition pad_right (width : nat) (s : string) : string :=
  s ++ spaces (width - String.length s).

(** [%lld]. *)
Definition lld (z : Z) : string := NilZero.string_of_int (Z.to_int z).

(** Rounding of the rational [num / den] to the nearest integer, ties to
    even. *)
Definition round_half_even (num den : Z) : Z :=
  let q := (num / den)%Z in
  let r := (num mod den)%Z in
  match (2 * r ?= den)%Z with
  | Lt => q
  | Gt => (q + 1)%Z
  | Eq => if Z.even q then q else (q + 1)%Z
  end.

(** The decimal expansion of [|x| * 10^digits] rounded to an integer,
    with the point put back. *)
Definition fixed (digits : nat) (m : positive) (e : Z) : string :=
  let scale := (10 ^ Z.of_nat digits)%Z in
  let n :=
    if (0 <=? e)%Z then (Z.pos m * 2 ^ e * scale)%Z
    else round_half_even (Z.pos m * scale) (2 ^ (- e)) in
  let frac := NilZero.string_of_uint (N.to_uint (Z.to_N (n mod scale))) in
  NilZero.string_of_uint (N.to_uint (Z.to_N (n / scale))) ++ "." ++
  zeros (digits - String.length frac) ++ frac.

Definition sign (s : bool) : string := if s then "-" else "".

(** [%W.Pf]. *)
Definition f (width digits : nat) (x : Double.double) : string :=
  pad_left width
    match x with
    | S754_zero s => sign s ++ "0." ++ zeros digits
    | S754_infinity s => sign s ++ "inf"
    | S754_nan => "nan"
    | S754_finite s m e => sign s ++ fixed digits m e
    end.

End Format.

Export Int64 Time Double.

(** ** The data of [stats.h] *)

(** Modelled from the spec: the declaration of [OpStats] in [stats.h],
    which is not among the sources.  One finished operation: the time it
    took and the bytes it moved, an [int64]. *)
Record OpStats : Type := {
  elapsed_time : Duration;
  transferred_bytes : Z
}.

(** Modelled from the spec: the message [WorkloadConfigResult] of
    [mlmd_bench.proto], which is not among the sources.  The two numbers a
    report leaves in the workload summary. *)
Record WorkloadConfigResult : Type := {
  bytes_per_second : double;
  microseconds_per_operation : double
}.

Definition set_bytes_per_second (v : double) (w : WorkloadConfigResult) :=
  {| bytes_per_second := v;
     microseconds_per_operation := microseconds_per_operation w |}.

Definition set_microseconds_per_operation (v : double)
    (w : WorkloadConfigResult) :=
  {| bytes_per_second := bytes_per_second w;
     microseconds_per_operation := v |}.

(** Modelled from the spec: the members of [ThreadStats] as [stats.h],
    which is not among the sources, declares them: two instants, the
    accumulated busy time, and three [int64] counters. *)
Record ThreadStats : Type := {
  start_ : Time;
  finish_ : Time;
  accumulated_elapsed_time_ : Duration;
  done_ : Z;
  bytes_ : Z;
  next_report_ : Z
}.

(** What a method writes, and where. *)
Inductive output : Type :=
| Stderr (text : string)
| Stdout (text : string)
| LogError (text : string).

(** ** Methods

    A method reads and assigns the members of [*this] and appends to the
    streams. *)

Definition method (A : Type) : Type :=
  ThreadStats -> A * ThreadStats * list output.

Definition ret {A : Type} (a : A) : method A := fun s => (a, s, []).

Definition bind {A B : Type} (m : method A) (k : A -> method B) : method B :=
  fun s =>
    let '(a, s1, o1) := m s in
    let '(b, s2, o2) := k a s1 in
    (b, s2, o1 ++ o2).

Declare Scope method_scope.
Delimit Scope method_scope with method.
Notation "x <- m ;; k" := (bind m (fun x => k))
  (at level 61, m at next level, right associativity) : method_scope.
Notation "' pat <- m ;; k" := (bind m (fun x => match x with pat => k end))
  (at level 61, pat pattern, m at next level, right associativity)
  : method_scope.
Notation "m ;; k" := (bind m (fun _ => k))
  (at level 61, right associativity) : method_scope.
Local Open Scope method_scope.

Definition member {A : Type} (field : ThreadStats -> A) : method A :=
  fun s => (field s, s, []).

Definition assign (update : ThreadStats -> ThreadStats) : method unit :=
  fun s => (tt, update s, []).

Definition write (o : output) : method unit := fun s => (tt, s, [o]).

Definition result_of {A : Type} (r : A * ThreadStats * list output) : A :=
  fst (fst r).
Definition state_of {A : Type} (r : A * ThreadStats * list output)
  : ThreadStats := snd (fst r).
Definition written {A : Type} (r : A * ThreadStats * list output)
  : list output := snd r.

(** Assignments to single members. *)

Definition with_start_ (v : Time) (s : ThreadStats) : ThreadStats :=
  {| start_ := v; finish_ := finish_ s;
     accumulated_elapsed_time_ := accumulated_elapsed_time_ s;
     done_ := done_ s; bytes_ := bytes_ s; next_report_ := next_report_ s |}.

Definition with_finish_ (v : Time) (s : ThreadStats) : ThreadStats :=
  {| start_ := start_ s; finish_ := v;
     accumulated_elapsed_time_ := accumulated_elapsed_time_ s;
     done_ := done_ s; bytes_ := bytes_ s; next_report_ := next_report_ s |}.

Definition with_accumulated_elapsed_time_ (v : Duration) (s : ThreadStats)
  : ThreadStats :=
  {| start_ := start_ s; finish_ := finish_ s;
     accumulated_elapsed_time_ := v;
     done_ := done_ s; bytes_ := bytes_ s; next_report_ := next_report_ s |}.

Definition with_done_ (v : Z) (s : ThreadStats) : ThreadStats :=
  {| start_ := start_ s; finish_ := finish_ s;
     accumulated_elapsed_time_ := accumulated_elapsed_time_ s;
     done_ := v; bytes_ := bytes_ s; next_report_ := next_report_ s |}.

Definition with_bytes_ (v : Z) (s : ThreadStats) : ThreadStats :=
  {| start_ := start_ s; finish_ := finish_ s;
     accumulated_elapsed_time_ := accumulated_elapsed_time_ s;
     done_ := done_ s; bytes_ := v; next_report_ := next_report_ s |}.

Definition with_next_report_ (v : Z) (s : ThreadStats) : ThreadStats :=
  {| start_ := start_ s; finish_ := finish_ s;
     accumulated_elapsed_time_ := accumulated_elapsed_time_ s;
     done_ := done_ s; bytes_ := bytes_ s; next_report_ := v |}.

(** ** The collector *)

(** [ThreadStats::ThreadStats()]: the counters start at zero and the first
    progress line is due at 100 operations; the two instants are
    default-constructed. *)
Definition ThreadStats_new : ThreadStats :=
  {| start_ := UnixEpoch;
     finish_ := UnixEpoch;
     accumulated_elapsed_time_ := Nanoseconds 0;
     done_ := 0;
     bytes_ := 0;
     next_report_ := 100 |}.

(** [Start] and [Stop] read the clock; [now] is what [absl::Now()] gave. *)
Definition Start (now : Time) : method unit :=
  assign (with_start_ now).

Definition Stop (now : Time) : method unit :=
  assign (with_finish_ now).

Definition report_thresholds : list Z :=
  [1000; 5000; 10000; 50000; 100000; 500000; 1000000].

Definition progress_line (approx_total_done : Z) : string :=
  ("... finished " ++ Format.lld approx_total_done ++ " ops" ++
   Format.pad_left 30 "" ++ String "013"%char EmptyString)%string.

(** [ThreadStats::Update].  The three totals are brought up to date, then
    the progress line is written if it is due.  [threshold_index] is a
    local that starts at 0 in every call; its increment at the end is lost
    with the call. *)
Definition Update (op_stats : OpStats) (approx_total_done : Z) : method unit :=
  bytes <- member bytes_ ;;
  assign (with_bytes_ (Int64.add bytes (transferred_bytes op_stats))) ;;
  elapsed <- member accumulated_elapsed_time_ ;;
  assign (with_accumulated_elapsed_time_ (elapsed + elapsed_time op_stats)) ;;
  done <- member done_ ;;
  assign (with_done_ (Int64.add done 1)) ;;
  let threshold_index := 0%nat in
  next_report <- member next_report_ ;;
  if approx_total_done <? next_report then ret tt
  else
    assign (with_next_report_
              (Int64.add next_report
                 (Z.quot (nth threshold_index report_thresholds 0) 10))) ;;
    next_report <- member next_report_ ;;
    let threshold_index :=
      if nth threshold_index report_thresholds 0 <? next_report
      then S threshold_index else threshold_index in
    write (Stderr (progress_line approx_total_done)).

(** [ThreadStats::Merge]: [this] takes the sums, the earlier start and the
    later finish; [other] is read only. *)
Definition Merge (other : ThreadStats) : method unit :=
  done <- member done_ ;;
  assign (with_done_ (Int64.add done (done_ other))) ;;
  bytes <- member bytes_ ;;
  assign (with_bytes_ (Int64.add bytes (bytes_ other))) ;;
  elapsed <- member accumulated_elapsed_time_ ;;
  assign (with_accumulated_elapsed_time_
            (elapsed + accumulated_elapsed_time_ other)) ;;
  start <- member start_ ;;
  assign (with_start_ (Z.min start (start_ other))) ;;
  finish <- member finish_ ;;
  assign (with_finish_ (Z.max finish (finish_ other))).

Definition never_executed : string :=
  "Current workload has not been executed even once!".

Definition report_line (specification : string)
    (microseconds_per_operation : double) (rate : string) : string :=
  (Format.pad_right 12 specification ++ " : " ++
   Format.f 11 3 microseconds_per_operation ++ " micros/op;" ++
   (if String.eqb rate "" then "" else " ") ++ rate ++
   String "010"%char EmptyString)%string.

(** [ThreadStats::Report].  The summary behind the pointer is an argument
    and the result.  Both quotients of durations are integers; the average
    is converted to [double] after its division by [done_], the seconds
    before theirs. *)
Definition Report (specification : string)
    (workload_summary : WorkloadConfigResult) : method WorkloadConfigResult :=
  done <- member done_ ;;
  if done =? 0 then
    write (LogError never_executed) ;;
    ret workload_summary
  else
    let bytes_per_second := Double.zero in
    elapsed <- member accumulated_elapsed_time_ ;;
    let microseconds_per_operation :=
      Double.of_int (Int64.div (IDivDuration elapsed (Microseconds 1)) done) in
    let rate := EmptyString in
    bytes <- member bytes_ ;;
    '(bytes_per_second, rate) <-
      (if 0 <? bytes then
         finish <- member finish_ ;;
         start <- member start_ ;;
         let elapsed_seconds :=
           Double.mul
             (Double.of_int (IDivDuration (since finish start) (Microseconds 1)))
             Double.micro in
         let bytes_per_second :=
           Double.div (Double.of_int bytes) elapsed_seconds in
         let rate :=
           (Format.f 6 1 (Double.div bytes_per_second Double.kilo) ++ " KB/s")%string in
         ret (bytes_per_second, rate)
       else ret (bytes_per_second, rate)) ;;
    write (Stdout (report_line specification microseconds_per_operation rate)) ;;
    ret (set_microseconds_per_operation microseconds_per_operation
           (set_bytes_per_second bytes_per_second workload_summary)).

(** A worker's run: the [Update] calls in the order they are made, each
    with the measurement and the caller's [approx_total_done]. *)
Fixpoint Updates (calls : list (OpStats * Z)) : method unit :=
  match calls with
  | [] => ret tt
  | (op_stats, approx_total_done) :: rest =>
      Update op_stats approx_total_done ;; Updates rest
  end.

(** Sums of the inputs of a run. *)
Definition total_transferred (calls : list (OpStats * Z)) : Z :=
  fold_right (fun c acc => transferred_bytes (fst c) + acc) 0 calls.

Definition total_elapsed (calls : list (OpStats * Z)) : Duration :=
  fold_right (fun c acc => elapsed_time (fst c) + acc) 0 calls.

(** The counters and the two instants a merge combines; the progress
    watermark is not among them. *)
Definition totals (s : ThreadStats) : Z * Z * Duration * Time * Time :=
  (done_ s, bytes_ s, accumulated_elapsed_time_ s, start_ s, finish_ s).

(** A way of merging collectors: each is used once, and [Merged a b] is
    [a.Merge(b)] on the outcomes of [a] and [b]. *)
Inductive reduction : Type :=
| Collector (s : ThreadStats)
| Merged (a b : reduction).

Fixpoint outcome (r : reduction) : ThreadStats :=
  match r with
  | Collector s => s
  | Merged a b => state_of (Merge (outcome b) (outcome a))
  end.

Fixpoint collectors (r : reduction) : list ThreadStats :=
  match r with
  | Collector s => [s]
  | Merged a b => collectors a ++ collectors b
  end.

(** ** Reducing with a commutative, associative operation

    [reduce op] folds a list with [op]; the empty list has no outcome. *)

Section Reduce.

Variable A : Type.
Variable op : A -> A -> A.

(** The operation with [None] adjoined as a unit. *)
Definition join (x y : option A) : option A :=
  match x, y with
  | None, _ => y
  | _, None => x
  | Some a, Some b => Some (op a b)
  end.

Definition reduce (l : list A) : option A :=
  fold_right (fun x acc => join (Some x) acc) None l.

End Reduce.

Arguments join {A} op x y.
Arguments reduce {A} op l.

(** What [a.Merge(b)] makes of the totals of [a] and [b]. *)
Definition merge_totals (a b : Z * Z * Duration * Time * Time)
  : Z * Z * Duration * Time * Time :=
  let '(done_a, bytes_a, elapsed_a, start_a, finish_a) := a in
  let '(done_b, bytes_b, elapsed_b, start_b, finish_b) := b in
  (Int64.add done_a done_b, Int64.add bytes_a bytes_b, elapsed_a + elapsed_b,
   Z.min start_a start_b, Z.max finish_a finish_b).

(** ** The figures of a report, as the design describes them *)

(** The span from start to finish expressed in seconds, as it is,
    fractions of a microsecond included, and the rate over it: the bytes
    divided by those seconds. *)
Definition span_seconds (start finish : Time) : double :=
  Double.div (Double.of_int (since finish start)) (Double.of_int (Seconds 1)).

Definition span_rate (total_bytes : Z) (start finish : Time) : double :=
  Double.div (Double.of_int total_bytes) (span_seconds start finish).

(** The whole microseconds from start to finish, and the rate over them:
    the bytes divided by the whole microseconds times [1e-6]. *)
Definition whole_microseconds (start finish : Time) : Z :=
  (finish - start) / Microseconds 1.

Definition whole_microsecond_rate (total_bytes : Z) (start finish : Time)
  : double :=
  Double.div (Double.of_int total_bytes)
             (Double.mul (Double.of_int (whole_microseconds start finish))
                         Double.micro).

(** The average busy time of an operation: the accumulated time in
    microseconds divided by the number of operations, as a fraction. *)
Definition average_microseconds (elapsed : Duration) (count : Z) : double :=
  Double.div (Double.of_int (IDivDuration elapsed (Microseconds 1)))
             (Double.of_int count).

(** A [double] above zero: finite or infinite, neither a zero nor a NaN. *)
Definition positive_double (x : double) : Prop :=
  match x with
  | S754_finite false _ _ | S754_infinity false => True
  | _ => False
  end.

(** ** Sample runs *)

(** A worker: [Start], the [Update] calls, [Stop]. *)
Definition worker (started : Time) (calls : list (OpStats * Z))
    (stopped : Time) : method unit :=
  Start started ;; Updates calls ;; Stop stopped.

Definition op (microseconds bytes : Z) : OpStats :=
  {| elapsed_time := Microseconds microseconds; transferred_bytes := bytes |}.

Definition unset : WorkloadConfigResult :=
  {| bytes_per_second := S754_nan; microseconds_per_operation := S754_nan |}.

(** Three operations of 100, 200 and 300 microseconds that move no data. *)
Definition three_ops : ThreadStats :=
  state_of (worker (Seconds 10) [(op 100 0, 1); (op 200 0, 2); (op 300 0, 3)]
              (Seconds 11) ThreadStats_new).

(** One operation of one mebibyte in a run of one second. *)
Definition one_mebibyte : ThreadStats :=
  state_of (worker (Seconds 10) [(op 1000000 1048576, 1)] (Seconds 11)
              ThreadStats_new).

(** Two operations of 1 and 2 microseconds. *)
Definition two_ops : ThreadStats :=
  state_of (worker (Seconds 10) [(op 1 0, 1); (op 2 0, 2)] (Seconds 11)
              ThreadStats_new).

(** One operation of one byte, started and stopped at the same reading of
    the clock. *)
Definition instantaneous : ThreadStats :=
  state_of (worker (Seconds 10) [(op 1 1, 1)] (Seconds 10) ThreadStats_new).

(** One operation of one byte in a run of 1999 nanoseconds. *)
Definition brief_run : ThreadStats :=
  state_of (worker (Seconds 10) [(op 1 1, 1)]
              (Seconds 10 + Nanoseconds 1999) ThreadStats_new).

(** Two workers' collectors: five operations and 500 bytes from [t0] to
    [t0 + 2 s], three operations and 300 bytes from [t0 + 1 s] to
    [t0 + 4 s], and a third. *)
Definition collector_a : ThreadStats :=
  {| start_ := Seconds 10; finish_ := Seconds 12;
     accumulated_elapsed_time_ := Microseconds 50;
     done_ := 5; bytes_ := 500; next_report_ := 100 |}.

Definition collector_b : ThreadStats :=
  {| start_ := Seconds 11; finish_ := Seconds 14;
     accumulated_elapsed_time_ := Microseconds 30;
     done_ := 3; bytes_ := 300; next_report_ := 100 |}.

Definition collector_c : ThreadStats :=
  {| start_ := Seconds 9; finish_ := Seconds 13;
     accumulated_elapsed_time_ := Microseconds 70;
     done_ := 7; bytes_ := 0; next_report_ := 300 |}.

(** ** Further notions *)

(** The calls of a worker that passes its own running count of operations
    as [approx_total_done]: [first] with the first operation, one more with
    each. *)
Fixpoint counted (first : Z) (ops : list OpStats) : list (OpStats * Z) :=
  match ops with
  | [] => []
  | op_stats :: rest => (op_stats, first) :: counted (first + 1) rest
  end.

(** The doubles that are numbers: zeros and finite values. *)
Definition finite_double (x : double) : bool :=
  match x with
  | S754_zero _ | S754_finite _ _ _ => true
  | S754_infinity _ | S754_nan => false
  end.

(** The sum of a list of integers. *)
Definition list_sum_Z (l : list Z) : Z := fold_right Z.add 0 l.

(** A collector whose finish is not before its start. *)
Definition timed (s : ThreadStats) : Prop := start_ s <= finish_ s.

(** * Properties *)

Arguments Int64.wrap64 : simpl never.
Arguments Int64.add : simpl never.
Arguments Int64.div : simpl never.
Arguments Double.of_int : simpl never.
Arguments Double.mul : simpl never.
Arguments Double.div : simpl never.
Arguments Format.f : simpl never.
Arguments Format.pad_right : simpl never.
Arguments Format.lld : simpl never.
Arguments IDivDuration : simpl never.

(** ** Arithmetic of [int64] *)

Lemma wrap64_in_range (z : Z) : Int64.in_range z -> wrap64 z = z.
Proof.
  unfold Int64.in_range, INT64_MIN, INT64_MAX, wrap64. intros H.
  rewrite Z.mod_small; lia.
Qed.

Lemma wrap64_range (z : Z) : Int64.in_range (wrap64 z).
Proof.
  unfold Int64.in_range, INT64_MIN, INT64_MAX, wrap64.
  pose proof (Z.mod_pos_bound (z + 2 ^ 63) (2 ^ 64)). lia.
Qed.

Lemma wrap64_add_l (a b : Z) : wrap64 (wrap64 a + b) = wrap64 (a + b).
Proof.
  unfold wrap64. f_equal.
  replace ((a + 2 ^ 63) mod 2 ^ 64 - 2 ^ 63 + b + 2 ^ 63)
    with ((a + 2 ^ 63) mod 2 ^ 64 + b) by lia.
  rewrite Zplus_mod_idemp_l. f_equal. lia.
Qed.

Lemma wrap64_add_r (a b : Z) : wrap64 (a + wrap64 b) = wrap64 (a + b).
Proof. rewrite (Z.add_comm a), wrap64_add_l. f_equal. lia. Qed.

Lemma add_comm (a b : Z) : Int64.add a b = Int64.add b a.
Proof. unfold Int64.add. f_equal. lia. Qed.

Lemma add_assoc (a b c : Z) :
  Int64.add (Int64.add a b) c = Int64.add a (Int64.add b c).
Proof.
  unfold Int64.add. rewrite wrap64_add_l, wrap64_add_r. f_equal. lia.
Qed.

Lemma add_in_range (a b : Z) : Int64.in_range (a + b) -> Int64.add a b = a + b.
Proof. apply wrap64_in_range. Qed.

(** ** What one call does to the collector *)

Ltac run_method :=
  unfold bind, member, assign, write, ret; simpl.

Lemma Update_run (op_stats : OpStats) (approx_total_done : Z)
    (s : ThreadStats) :
  Update op_stats approx_total_done s =
  (tt,
   {| start_ := start_ s;
      finish_ := finish_ s;
      accumulated_elapsed_time_ :=
        accumulated_elapsed_time_ s + elapsed_time op_stats;
      done_ := Int64.add (done_ s) 1;
      bytes_ := Int64.add (bytes_ s) (transferred_bytes op_stats);
      next_report_ :=
        if approx_total_done <? next_report_ s then next_report_ s
        else Int64.add (next_report_ s) 100 |},
   if approx_total_done <? next_report_ s then []
   else [Stderr (progress_line approx_total_done)]).
Proof.
  unfold Update. run_method.
  destruct (approx_total_done <? next_report_ s); reflexivity.
Qed.

Lemma Merge_run (other s : ThreadStats) :
  Merge other s =
  (tt,
   {| start_ := Z.min (start_ s) (start_ other);
      finish_ := Z.max (finish_ s) (finish_ other);
      accumulated_elapsed_time_ :=
        accumulated_elapsed_time_ s + accumulated_elapsed_time_ other;
      done_ := Int64.add (done_ s) (done_ other);
      bytes_ := Int64.add (bytes_ s) (bytes_ other);
      next_report_ := next_report_ s |},
   []).
Proof. reflexivity. Qed.

Lemma Updates_cons (op_stats : OpStats) (approx_total_done : Z)
    (rest : list (OpStats * Z)) (s : ThreadStats) :
  state_of (Updates ((op_stats, approx_total_done) :: rest) s) =
  state_of (Updates rest (state_of (Update op_stats approx_total_done s))).
Proof.
  cbn [Updates]. unfold bind.
  destruct (Update op_stats approx_total_done s) as [[u s1] o1].
  cbn [state_of fst snd].
  destruct (Updates rest s1) as [[u2 s2] o2]. reflexivity.
Qed.

Lemma Updates_run (calls : list (OpStats * Z)) (s : ThreadStats) :
  Int64.in_range (done_ s) -> Int64.in_range (bytes_ s) ->
  let s' := state_of (Updates calls s) in
  done_ s' = wrap64 (done_ s + Z.of_nat (List.length calls)) /\
  bytes_ s' = wrap64 (bytes_ s + total_transferred calls) /\
  accumulated_elapsed_time_ s' =
    accumulated_elapsed_time_ s + total_elapsed calls.
Proof.
  revert s. induction calls as [| [op_stats approx] rest IH]; intros s Hd Hb.
  - simpl. rewrite !Z.add_0_r, !wrap64_in_range by assumption. auto.
  - cbv zeta. rewrite Updates_cons, Update_run.
    match goal with
    | |- context [Updates rest ?s1] => specialize (IH s1)
    end.
    cbn [fst snd state_of done_ bytes_ accumulated_elapsed_time_] in IH |- *.
    destruct IH as (Hdone & Hbytes & Helapsed);
      [apply wrap64_range | apply wrap64_range |].
    rewrite Hdone, Hbytes, Helapsed. unfold Int64.add.
    rewrite !wrap64_add_l.
    cbn [List.length total_transferred total_elapsed fold_right fst].
    fold (total_elapsed rest). fold (total_transferred rest).
    repeat split; first [lia | f_equal; lia].
Qed.

(** [Report] on a collector that has recorded nothing. *)
Lemma Report_run_never (specification : string) (w : WorkloadConfigResult)
    (s : ThreadStats) :
  done_ s = 0 ->
  Report specification w s = (w, s, [LogError never_executed]).
Proof.
  intros H. unfold Report. run_method. rewrite H. reflexivity.
Qed.

(** [Report] on a collector that has recorded operations. *)
Lemma Report_run (specification : string) (w : WorkloadConfigResult)
    (s : ThreadStats) :
  done_ s <> 0 ->
  let average :=
    Double.of_int
      (Int64.div (IDivDuration (accumulated_elapsed_time_ s) (Microseconds 1))
                 (done_ s)) in
  let rate :=
    Double.div
      (Double.of_int (bytes_ s))
      (Double.mul
         (Double.of_int
            (IDivDuration (since (finish_ s) (start_ s)) (Microseconds 1)))
         Double.micro) in
  Report specification w s =
  if 0 <? bytes_ s then
    ({| bytes_per_second := rate; microseconds_per_operation := average |},
     s,
     [Stdout (report_line specification average
                (Format.f 6 1 (Double.div rate Double.kilo) ++ " KB/s"))])
  else
    ({| bytes_per_second := Double.zero;
        microseconds_per_operation := average |},
     s,
     [Stdout (report_line specification average "")]).
Proof.
  intros H. apply Z.eqb_neq in H. unfold Report. run_method. rewrite H.
  destruct (0 <? bytes_ s); reflexivity.
Qed.

(** ** Rounding to [double] keeps the sign of a nonzero value *)

Lemma digits2_pos_size (p : positive) : digits2_pos p = Pos.size p.
Proof. induction p; simpl; congruence. Qed.

Lemma Zdigits2_log2 (p : positive) :
  Zdigits2 (Z.pos p) = Z.log2 (Z.pos p) + 1.
Proof.
  destruct p; simpl; rewrite ?digits2_pos_size; lia.
Qed.

Lemma shr_1_div2 (mrs : shr_record) :
  0 <= shr_m mrs -> shr_m (shr_1 mrs) = Z.shiftr (shr_m mrs) 1.
Proof.
  destruct mrs as [m r s]. cbn [shr_m]. intros H.
  rewrite <- Z.div2_spec.
  destruct m as [| [p | p |] | p]; try reflexivity; lia.
Qed.

Lemma iter_shr_1 (n : positive) (mrs : shr_record) :
  0 <= shr_m mrs ->
  shr_m (iter_pos shr_1 n mrs) = Z.shiftr (shr_m mrs) (Z.pos n).
Proof.
  revert mrs. induction n as [n IH | n IH |]; intros mrs H; cbn [iter_pos].
  - assert (H1 : 0 <= shr_m (shr_1 mrs))
      by (rewrite shr_1_div2 by assumption; now apply Z.shiftr_nonneg).
    assert (H2 : 0 <= shr_m (iter_pos shr_1 n (shr_1 mrs)))
      by (rewrite IH by assumption; now apply Z.shiftr_nonneg).
    rewrite IH, IH, shr_1_div2 by assumption.
    rewrite !Z.shiftr_shiftr by lia. f_equal. lia.
  - assert (H2 : 0 <= shr_m (iter_pos shr_1 n mrs))
      by (rewrite IH by assumption; now apply Z.shiftr_nonneg).
    rewrite IH, IH by assumption.
    rewrite !Z.shiftr_shiftr by lia. f_equal. lia.
  - now apply shr_1_div2.
Qed.

Lemma shr_m_of_loc (m : Z) (l : location) :
  shr_m (shr_record_of_loc m l) = m.
Proof. destruct l as [| []]; reflexivity. Qed.

(** One alignment step keeps a positive mantissa positive, and the
    position of its leading bit. *)
Lemma shr_fexp_positive (m e : Z) (l : location) :
  0 < m -> -1074 < e + Z.log2 m + 1 ->
  let '(mrs, e') := shr_fexp Double.prec Double.emax m e l in
  0 < shr_m mrs /\ e' + Z.log2 (shr_m mrs) = e + Z.log2 m.
Proof.
  intros Hm He. unfold shr_fexp, shr.
  destruct m as [| p | p]; try lia.
  rewrite Zdigits2_log2.
  remember (fexp Double.prec Double.emax (Z.log2 (Z.pos p) + 1 + e) - e) as n
    eqn:En.
  assert (Hn : n <= Z.log2 (Z.pos p)).
  { subst n. unfold fexp, SpecFloat.emin, Double.prec, Double.emax. lia. }
  destruct n as [| k | k]; rewrite ?shr_m_of_loc; try (split; lia).
  rewrite iter_shr_1 by (rewrite shr_m_of_loc; lia).
  rewrite shr_m_of_loc.
  assert (Hs : Z.shiftr (Z.pos p) (Z.pos k) <> 0).
  { rewrite Z.shiftr_eq_0_iff. lia. }
  pose proof (Z.shiftr_nonneg (Z.pos p) (Z.pos k)).
  rewrite Z.log2_shiftr by lia. split; lia.
Qed.

Lemma round_nearest_even_bounds (m : Z) (l : location) :
  m <= round_nearest_even m l <= m + 1.
Proof.
  unfold round_nearest_even.
  destruct l as [| []]; try destruct (Z.even m); lia.
Qed.

Lemma binary_round_aux_sign (sx : bool) (mx ex : Z) (lx : location) :
  0 < mx -> -1074 < ex + Z.log2 mx + 1 ->
  match binary_round_aux Double.prec Double.emax sx mx ex lx with
  | S754_finite s _ _ | S754_infinity s => s = sx
  | _ => False
  end.
Proof.
  intros Hm He. unfold binary_round_aux.
  pose proof (shr_fexp_positive mx ex lx Hm He) as H1.
  destruct (shr_fexp Double.prec Double.emax mx ex lx) as [mrs' e'].
  destruct H1 as [Hpos1 Hlog1].
  pose proof (round_nearest_even_bounds (shr_m mrs') (loc_of_shr_record mrs'))
    as Hr.
  set (m2 := round_nearest_even (shr_m mrs') (loc_of_shr_record mrs')) in *.
  assert (Hlog2 : Z.log2 (shr_m mrs') <= Z.log2 m2)
    by (apply Z.log2_le_mono; lia).
  assert (H2 : 0 < m2 /\ -1074 < e' + Z.log2 m2 + 1) by lia.
  destruct H2 as [Hm2 He2].
  pose proof (shr_fexp_positive m2 e' loc_Exact Hm2 He2) as H3.
  destruct (shr_fexp Double.prec Double.emax m2 e' loc_Exact) as [mrs'' e''].
  destruct H3 as [Hpos3 _].
  destruct (shr_m mrs'') as [| p | p]; try lia.
  destruct (e'' <=? Double.emax - Double.prec); reflexivity.
Qed.

(** The conversion of a positive integer is above zero. *)
Lemma of_int_positive (z : Z) : 0 < z -> positive_double (Double.of_int z).
Proof.
  intros Hz. destruct z as [| p | p]; try lia.
  unfold Double.of_int, binary_normalize, binary_round, shl_align.
  set (e := fexp Double.prec Double.emax (Z.pos (digits2_pos p) + 0)).
  assert (He : -1074 <= e)
    by (unfold e, fexp, SpecFloat.emin, Double.prec, Double.emax; lia).
  assert (Hgoal : forall mz ez, -1074 <= ez ->
            positive_double
              (binary_round_aux Double.prec Double.emax false (Z.pos mz) ez
                 loc_Exact)).
  { intros mz ez Hez.
    pose proof (binary_round_aux_sign false (Z.pos mz) ez loc_Exact) as H.
    pose proof (Z.log2_nonneg (Z.pos mz)).
    unfold positive_double.
    destruct (binary_round_aux _ _ _ _ _ _) as [| s | | s m' e'];
      try (now apply H; lia); (assert (s = false) as -> by (apply H; lia));
      exact I. }
  destruct (e - 0) as [| d | d] eqn:Hd; apply Hgoal; lia.
Qed.

(** Dividing a value above zero by [+0.0] gives [+inf]. *)
Lemma div_positive_by_zero (x : double) :
  positive_double x -> Double.div x Double.zero = Double.pos_infinity.
Proof. destruct x as [[] | [] | | [] m e]; simpl; intros H; now try easy. Qed.

Lemma elapsed_seconds_instant (t : Time) :
  Double.mul (Double.of_int (IDivDuration (since t t) (Microseconds 1)))
             Double.micro = Double.zero.
Proof.
  unfold since. rewrite Z.sub_diag. reflexivity.
Qed.

(** ** Merging in any order *)

Lemma merge_totals_comm (a b : Z * Z * Duration * Time * Time) :
  merge_totals a b = merge_totals b a.
Proof.
  destruct a as [[[[da ba] ea] sa] fa], b as [[[[db bb] eb] sb] fb].
  unfold merge_totals.
  rewrite (add_comm da), (add_comm ba), (Z.add_comm ea), (Z.min_comm sa),
    (Z.max_comm fa).
  reflexivity.
Qed.

Lemma merge_totals_assoc (a b c : Z * Z * Duration * Time * Time) :
  merge_totals (merge_totals a b) c = merge_totals a (merge_totals b c).
Proof.
  destruct a as [[[[da ba] ea] sa] fa], b as [[[[db bb] eb] sb] fb],
    c as [[[[dc bc] ec] sc] fc].
  unfold merge_totals.
  rewrite !add_assoc, Z.add_assoc, Z.min_assoc, Z.max_assoc. reflexivity.
Qed.

Lemma totals_Merge (a b : ThreadStats) :
  totals (state_of (Merge b a)) = merge_totals (totals a) (totals b).
Proof. reflexivity. Qed.

Section ReduceFacts.

Variable A : Type.
Variable op : A -> A -> A.
Hypothesis op_comm : forall x y, op x y = op y x.
Hypothesis op_assoc : forall x y z, op (op x y) z = op x (op y z).

Lemma join_comm (x y : option A) : join op x y = join op y x.
Proof. destruct x, y; simpl; congruence. Qed.

Lemma join_assoc (x y z : option A) :
  join op (join op x y) z = join op x (join op y z).
Proof. destruct x, y, z; simpl; congruence. Qed.

Lemma reduce_cons (x : A) (l : list A) :
  reduce op (x :: l) = join op (Some x) (reduce op l).
Proof. reflexivity. Qed.

Lemma reduce_app (l1 l2 : list A) :
  reduce op (l1 ++ l2) = join op (reduce op l1) (reduce op l2).
Proof.
  induction l1 as [| x l1 IH]; [reflexivity |].
  rewrite <- app_comm_cons, !reduce_cons, IH, join_assoc. reflexivity.
Qed.

Lemma reduce_Permutation (l1 l2 : list A) :
  Permutation l1 l2 -> reduce op l1 = reduce op l2.
Proof.
  induction 1 as [| x l l' _ IH | x y l | l l' l'' _ IH1 _ IH2].
  - reflexivity.
  - rewrite !reduce_cons, IH. reflexivity.
  - rewrite !reduce_cons, <- !join_assoc. f_equal. apply join_comm.
  - congruence.
Qed.

End ReduceFacts.

(** The outcome of a reduction is the reduction of its collectors' totals,
    whatever its shape. *)
Lemma totals_outcome (r : reduction) :
  reduce merge_totals (map totals (collectors r)) = Some (totals (outcome r)).
Proof.
  induction r as [s | a IHa b IHb]; [reflexivity |].
  cbn [collectors outcome]. rewrite map_app, reduce_app, IHa, IHb, totals_Merge.
  - reflexivity.
  - apply merge_totals_assoc.
Qed.

(** X10. The average that [Report] stores is the whole microseconds of the
    accumulated time divided, as integers, by the operations. *)
Lemma Report_average_quotient (specification : string)
    (w : WorkloadConfigResult) (s : ThreadStats) :
  0 < done_ s ->
  0 <= accumulated_elapsed_time_ s ->
  accumulated_elapsed_time_ s / Microseconds 1 <= INT64_MAX ->
  microseconds_per_operation (result_of (Report specification w s)) =
    Double.of_int (accumulated_elapsed_time_ s / Microseconds 1 / done_ s).
Proof.
  intros Hdone Hbusy Hfits. rewrite Report_run by lia.
  assert (Hq : IDivDuration (accumulated_elapsed_time_ s) (Microseconds 1) =
               accumulated_elapsed_time_ s / Microseconds 1).
  { unfold IDivDuration, Microseconds, kTicksPerNanosecond in *.
    replace (1 * (1000 * 4) =? 0) with false by reflexivity.
    rewrite Z.quot_div_nonneg by lia.
    assert (0 <= accumulated_elapsed_time_ s / (1 * (1000 * 4)))
      by (apply Z.div_pos; lia).
    unfold sat64, INT64_MIN, INT64_MAX in *. lia. }
  assert (Hd : Int64.div (accumulated_elapsed_time_ s / Microseconds 1)
                 (done_ s) =
               accumulated_elapsed_time_ s / Microseconds 1 / done_ s).
  { unfold Int64.div.
    assert (0 <= accumulated_elapsed_time_ s / Microseconds 1)
      by (apply Z.div_pos; unfold Microseconds, kTicksPerNanosecond; lia).
    rewrite Z.quot_div_nonneg by lia.
    apply wrap64_in_range.
    assert (0 <= accumulated_elapsed_time_ s / Microseconds 1 / done_ s)
      by (apply Z.div_pos; lia).
    assert (accumulated_elapsed_time_ s / Microseconds 1 / done_ s <=
            accumulated_elapsed_time_ s / Microseconds 1)
      by (apply Z.div_le_upper_bound; nia).
    unfold Int64.in_range, INT64_MIN, INT64_MAX in *. lia. }
  destruct (0 <? bytes_ s); cbn [result_of fst microseconds_per_operation];
    rewrite Hq, Hd; reflexivity.
Qed.

(** ** The constants and the conversions on examples *)

(** [1e-6] is the double nearest to one millionth, [1024.0] is 1024. *)
Example micro_nearest :
  Double.micro = Double.div (Double.of_int 1) (Double.of_int 1000000).
Proof. reflexivity. Qed.

Example kilo_exact : Double.kilo = Double.of_int 1024.
Proof. reflexivity. Qed.

Example f_rounds_to_even :
  Format.f 6 2 (Double.div (Double.of_int 1) (Double.of_int 8)) = "  0.12"%string /\
  Format.f 6 2 (Double.div (Double.of_int 3) (Double.of_int 8)) = "  0.38"%string /\
  Format.f 6 1 (Double.div (Double.of_int (-5)) (Double.of_int 2)) = "  -2.5"%string /\
  Format.f 6 1 Double.pos_infinity = "   inf"%string.
Proof. repeat split. Qed.

Example progress_line_example :
  progress_line 1234 =
  ("... finished 1234 ops" ++ Format.spaces 30 ++ String "013"%char "")%string.
Proof. reflexivity. Qed.

Example wrap64_example :
  Int64.add INT64_MAX 1 = INT64_MIN /\ Int64.div (-7) 2 = -3.
Proof. split; reflexivity. Qed.

(** * The claims *)

(** ** [Update] *)

(** C3. A call to [Update] writes a progress line exactly when
    [approx_total_done] has reached [next_report_] as it stood at entry.
    When it writes, it writes that one line and moves [next_report_] up by
    100, a tenth of the first entry of [report_thresholds] (the index into
    the table is a local of the call), and when it does not, [next_report_]
    stays.  The watermark is taken with room for the step in its [int64]. *)
Theorem Update_progress (op_stats : OpStats) (approx_total_done : Z)
    (s : ThreadStats) :
  Int64.in_range (next_report_ s + 100) ->
  let r := Update op_stats approx_total_done s in
  (written r <> [] <-> next_report_ s <= approx_total_done) /\
  (next_report_ s <= approx_total_done ->
   written r = [Stderr (progress_line approx_total_done)] /\
   next_report_ (state_of r) = next_report_ s + 100) /\
  (approx_total_done < next_report_ s ->
   written r = [] /\ next_report_ (state_of r) = next_report_ s) /\
  Z.quot (hd 0 report_thresholds) 10 = 100.
Proof.
  intros Hrange r. subst r. rewrite Update_run.
  cbn [written state_of fst snd next_report_].
  destruct (Z.ltb_spec approx_total_done (next_report_ s)) as [Hlt | Hge].
  - repeat split; try lia; try tauto.
  - rewrite add_in_range by assumption.
    repeat split; try lia; try discriminate.
Qed.

Lemma Update_progress_witness :
  Int64.in_range (next_report_ ThreadStats_new + 100) /\
  written (Update (op 1 0) 100 ThreadStats_new) =
    [Stderr (progress_line 100)] /\
  next_report_ (state_of (Update (op 1 0) 100 ThreadStats_new)) = 200.
Proof.
  assert (H : Int64.in_range (next_report_ ThreadStats_new + 100))
    by (unfold Int64.in_range, INT64_MIN, INT64_MAX; simpl; lia).
  split; [exact H |].
  apply (Update_progress (op 1 0) 100 ThreadStats_new H). simpl. lia.
Defined.

(** C5. After the [Update] calls of a run on a freshly created collector,
    whatever [approx_total_done] each call was given, [done_] is the number
    of calls, [bytes_] the sum of the [transferred_bytes] and
    [accumulated_elapsed_time_] the sum of the [elapsed_time]s, the two
    integer totals being ones an [int64] holds. *)
Theorem Updates_exact_sums (calls : list (OpStats * Z)) :
  Int64.in_range (Z.of_nat (List.length calls)) ->
  Int64.in_range (total_transferred calls) ->
  let s := state_of (Updates calls ThreadStats_new) in
  done_ s = Z.of_nat (List.length calls) /\
  bytes_ s = total_transferred calls /\
  accumulated_elapsed_time_ s = total_elapsed calls.
Proof.
  intros Hcount Hbytes.
  assert (Hzero : Int64.in_range 0)
    by (unfold Int64.in_range, INT64_MIN, INT64_MAX; lia).
  destruct (Updates_run calls ThreadStats_new Hzero Hzero)
    as (Hd & Hb & He).
  cbv zeta. rewrite Hd, Hb, He. cbn [ThreadStats_new done_ bytes_
    accumulated_elapsed_time_ Nanoseconds]. rewrite !Z.add_0_l.
  rewrite !wrap64_in_range by assumption. auto.
Qed.

Lemma Updates_exact_sums_witness :
  let calls := [(op 100 10, 1); (op 200 0, 150); (op 300 32, 3)] in
  let s := state_of (Updates calls ThreadStats_new) in
  Int64.in_range (Z.of_nat (List.length calls)) /\
  Int64.in_range (total_transferred calls) /\
  done_ s = 3 /\ bytes_ s = 42 /\
  accumulated_elapsed_time_ s = Microseconds 600.
Proof.
  assert (H1 : Int64.in_range 3)
    by (unfold Int64.in_range, INT64_MIN, INT64_MAX; lia).
  assert (H2 : Int64.in_range 42)
    by (unfold Int64.in_range, INT64_MIN, INT64_MAX; lia).
  split; [exact H1 | split; [exact H2 |]].
  exact (Updates_exact_sums
           [(op 100 10, 1); (op 200 0, 150); (op 300 32, 3)] H1 H2).
Defined.

(** ** [Merge] *)

(** C6. After [a.Merge(b)] the operation count, the bytes and the
    accumulated time of [a] are the sums of the two collectors' values, its
    start the earlier of the two starts and its finish the later of the two
    finishes, the two integer sums being ones an [int64] holds. *)
Theorem Merge_sums (a b : ThreadStats) :
  Int64.in_range (done_ a + done_ b) ->
  Int64.in_range (bytes_ a + bytes_ b) ->
  let a' := state_of (Merge b a) in
  done_ a' = done_ a + done_ b /\
  bytes_ a' = bytes_ a + bytes_ b /\
  accumulated_elapsed_time_ a' =
    accumulated_elapsed_time_ a + accumulated_elapsed_time_ b /\
  start_ a' = Z.min (start_ a) (start_ b) /\
  finish_ a' = Z.max (finish_ a) (finish_ b).
Proof.
  intros Hd Hb. cbv zeta. rewrite Merge_run.
  cbn [state_of fst snd done_ bytes_ accumulated_elapsed_time_ start_ finish_].
  rewrite !add_in_range by assumption. auto.
Qed.

Lemma Merge_sums_witness :
  let a' := state_of (Merge collector_b collector_a) in
  Int64.in_range (done_ collector_a + done_ collector_b) /\
  Int64.in_range (bytes_ collector_a + bytes_ collector_b) /\
  done_ a' = 8 /\ bytes_ a' = 800 /\
  accumulated_elapsed_time_ a' = Microseconds 80 /\
  start_ a' = Seconds 10 /\ finish_ a' = Seconds 14.
Proof.
  assert (H1 : Int64.in_range (done_ collector_a + done_ collector_b))
    by (unfold Int64.in_range, INT64_MIN, INT64_MAX; simpl; lia).
  assert (H2 : Int64.in_range (bytes_ collector_a + bytes_ collector_b))
    by (unfold Int64.in_range, INT64_MIN, INT64_MAX; simpl; lia).
  split; [exact H1 | split; [exact H2 |]].
  exact (Merge_sums collector_a collector_b H1 H2).
Defined.

(** C7. Merging is commutative and associative on the operation count, the
    bytes, the accumulated time, the start and the finish: two reductions
    of the same collectors, in whatever order and grouping, end with the
    same five values. *)
Theorem Merge_any_order (r1 r2 : reduction) :
  Permutation (collectors r1) (collectors r2) ->
  totals (outcome r1) = totals (outcome r2).
Proof.
  intros H. apply (Permutation_map totals) in H.
  apply (reduce_Permutation _ merge_totals merge_totals_comm
           merge_totals_assoc) in H.
  rewrite !totals_outcome in H. congruence.
Qed.

Lemma Merge_any_order_witness :
  let r1 := Merged (Merged (Collector collector_a) (Collector collector_b))
                   (Collector collector_c) in
  let r2 := Merged (Collector collector_c)
                   (Merged (Collector collector_b) (Collector collector_a)) in
  Permutation (collectors r1) (collectors r2) /\
  totals (outcome r1) = totals (outcome r2).
Proof.
  intros r1 r2.
  assert (H : Permutation (collectors r1) (collectors r2)).
  { simpl.
    apply Permutation_trans with [collector_a; collector_c; collector_b].
    - apply perm_skip, perm_swap.
    - apply Permutation_trans with [collector_c; collector_a; collector_b].
      + apply perm_swap.
      + apply perm_skip, perm_swap. }
  split; [exact H | exact (Merge_any_order r1 r2 H)].
Defined.

(** ** [Report] *)





(** C10. [Report] assigns to no member of the collector: all six are
    afterwards what they were, whatever the collector and the arguments.
    What it does is write, to the log or to the standard output. *)
Theorem Report_keeps_collector (specification : string)
    (w : WorkloadConfigResult) (s : ThreadStats) :
  let s' := state_of (Report specification w s) in
  accumulated_elapsed_time_ s' = accumulated_elapsed_time_ s /\
  done_ s' = done_ s /\
  bytes_ s' = bytes_ s /\
  start_ s' = start_ s /\
  finish_ s' = finish_ s /\
  next_report_ s' = next_report_ s.
Proof.
  assert (H : state_of (Report specification w s) = s).
  { destruct (Z.eq_dec (done_ s) 0) as [H | H].
    - rewrite Report_run_never by assumption. reflexivity.
    - rewrite Report_run by assumption.
      destruct (0 <? bytes_ s); reflexivity. }
  cbv zeta. rewrite H. repeat split.
Qed.

(** C1. On a collector with bytes recorded whose finish is its start, the
    seconds are [0.0] and the division is made all the same:
    [bytes_per_second] is set to [+inf].  It is not left at 0, as the
    comment above the branch in [Report] has it. *)
Theorem Report_instantaneous_run (specification : string)
    (w : WorkloadConfigResult) (s : ThreadStats) :
  0 < done_ s -> 0 < bytes_ s -> finish_ s = start_ s ->
  bytes_per_second (result_of (Report specification w s)) =
    Double.pos_infinity.
Proof.
  intros Hdone Hbytes Hspan. rewrite Report_run by lia.
  pose proof Hbytes as Hb. apply Z.ltb_lt in Hb. rewrite Hb.
  cbn [result_of fst bytes_per_second].
  rewrite Hspan, elapsed_seconds_instant.
  apply div_positive_by_zero, of_int_positive, Hbytes.
Qed.

Lemma Report_instantaneous_run_witness :
  0 < done_ instantaneous /\ 0 < bytes_ instantaneous /\
  finish_ instantaneous = start_ instantaneous /\
  bytes_per_second (result_of (Report "fill" unset instantaneous)) =
    Double.pos_infinity.
Proof.
  split; [reflexivity | split; [reflexivity | split; [reflexivity |]]].
  apply (Report_instantaneous_run "fill" unset instantaneous); reflexivity.
Defined.

(** C2. On two operations of 1 and 2 microseconds the quotient is taken
    between integers: [microseconds_per_operation] is 1, and the average of
    the two, 1.5, is not what the summary gets. *)
Theorem Report_average_truncated :
  microseconds_per_operation (result_of (Report "fill" unset two_ops)) =
    Double.of_int 1 /\
  average_microseconds (accumulated_elapsed_time_ two_ops) (done_ two_ops) =
    Double.div (Double.of_int 3) (Double.of_int 2) /\
  microseconds_per_operation (result_of (Report "fill" unset two_ops)) <>
    average_microseconds (accumulated_elapsed_time_ two_ops) (done_ two_ops).
Proof.
  repeat split; try reflexivity. vm_compute. discriminate.
Qed.

(** A run shorter than a microsecond has zero whole microseconds between
    start and finish, and the rate is [+inf] as for an instantaneous one. *)
Lemma Report_short_run (specification : string) (w : WorkloadConfigResult)
    (s : ThreadStats) :
  0 < done_ s -> 0 < bytes_ s ->
  start_ s <= finish_ s < start_ s + Microseconds 1 ->
  bytes_per_second (result_of (Report specification w s)) =
    Double.pos_infinity.
Proof.
  intros Hdone Hbytes Hspan. rewrite Report_run by lia.
  pose proof Hbytes as Hb. apply Z.ltb_lt in Hb. rewrite Hb.
  cbn [result_of fst bytes_per_second].
  unfold IDivDuration, since.
  unfold Microseconds, kTicksPerNanosecond in *.
  replace (1 * (1000 * 4) =? 0) with false by reflexivity.
  rewrite Z.quot_small by lia.
  apply div_positive_by_zero, of_int_positive, Hbytes.
Qed.

(** ** The scenarios of the design *)

(** Three operations of 100, 200 and 300 microseconds and no bytes. *)
Example three_ops_report :
  Report "fill" unset three_ops =
  ({| bytes_per_second := Double.zero;
      microseconds_per_operation := Double.of_int 200 |},
   three_ops,
   [Stdout ("fill         :     200.000 micros/op;" ++
            String "010"%char "")]).
Proof. reflexivity. Qed.

(** One mebibyte in one second. *)
Example one_mebibyte_report :
  Report "fill" unset one_mebibyte =
  ({| bytes_per_second := Double.of_int 1048576;
      microseconds_per_operation := Double.of_int 1000000 |},
   one_mebibyte,
   [Stdout ("fill         : 1000000.000 micros/op; 1024.0 KB/s" ++
            String "010"%char "")]).
Proof. reflexivity. Qed.

(** Five operations and 500 bytes merged with three operations and 300
    bytes. *)
Example merge_a_b :
  totals (state_of (Merge collector_b collector_a)) =
  (8, 800, Microseconds 80, Seconds 10, Seconds 14).
Proof. reflexivity. Qed.

(** The watermark stays with the collector merged into. *)
Example merge_next_report :
  next_report_ (state_of (Merge collector_c collector_a)) = 100 /\
  next_report_ (state_of (Merge collector_a collector_c)) = 300.
Proof. split; reflexivity. Qed.

(** The instantaneous run, printed. *)
Example instantaneous_report :
  Report "fill" unset instantaneous =
  ({| bytes_per_second := Double.pos_infinity;
      microseconds_per_operation := Double.of_int 1 |},
   instantaneous,
   [Stdout ("fill         :       1.000 micros/op;    inf KB/s" ++
            String "010"%char "")]).
Proof. reflexivity. Qed.

(** * Beyond the claims *)

(** ** Magnitudes of doubles

    The position of the leading bit of a finite double [m * 2^e] is
    [e + log2 m]; rounding moves it up by one at most. *)

Lemma binary_round_aux_finite (sx : bool) (mx ex : Z) (lx : location) :
  0 < mx -> -1074 <= ex + Z.log2 mx -> ex + Z.log2 mx <= 970 ->
  exists m e,
    binary_round_aux Double.prec Double.emax sx mx ex lx = S754_finite sx m e /\
    ex + Z.log2 mx <= e + Z.log2 (Z.pos m) <= ex + Z.log2 mx + 1.
Proof.
  intros Hm Hlow Hhigh. unfold binary_round_aux.
  pose proof (shr_fexp_positive mx ex lx Hm ltac:(lia)) as H1.
  destruct (shr_fexp Double.prec Double.emax mx ex lx) as [mrs' e'].
  destruct H1 as [Hpos1 Hlog1].
  pose proof (round_nearest_even_bounds (shr_m mrs') (loc_of_shr_record mrs'))
    as Hr.
  set (m2 := round_nearest_even (shr_m mrs') (loc_of_shr_record mrs')) in *.
  assert (Hlog2 : Z.log2 (shr_m mrs') <= Z.log2 m2 <= Z.log2 (shr_m mrs') + 1).
  { split; [apply Z.log2_le_mono; lia |].
    transitivity (Z.log2 (Z.succ (shr_m mrs')));
      [apply Z.log2_le_mono; lia | apply Z.log2_succ_le]. }
  pose proof (shr_fexp_positive m2 e' loc_Exact ltac:(lia) ltac:(lia)) as H3.
  destruct (shr_fexp Double.prec Double.emax m2 e' loc_Exact) as [mrs'' e''].
  destruct H3 as [Hpos3 Hlog3].
  destruct (shr_m mrs'') as [| p | p]; try lia.
  pose proof (Z.log2_nonneg (Z.pos p)).
  replace (e'' <=? Double.emax - Double.prec) with true
    by (symmetry; apply Z.leb_le; unfold Double.emax, Double.prec; lia).
  exists p, e''. split; [reflexivity | lia].
Qed.

Lemma iter_xO_pow2 (p d : positive) :
  Z.pos (Pos.iter xO p d) = Z.pos p * 2 ^ Z.pos d.
Proof.
  induction d as [| d IH] using Pos.peano_ind.
  - simpl. lia.
  - rewrite Pos.iter_succ, Pos2Z.inj_xO, IH, Pos2Z.inj_succ, Z.pow_succ_r by lia.
    lia.
Qed.

(** The conversion of a nonzero integer of 64 bits is finite, with the
    sign and the magnitude of the integer. *)
Lemma binary_round_finite (sx : bool) (p : positive) :
  Z.pos p < 2 ^ 64 ->
  exists m e,
    binary_round Double.prec Double.emax sx p 0 = S754_finite sx m e /\
    Z.log2 (Z.pos p) <= e + Z.log2 (Z.pos m) <= Z.log2 (Z.pos p) + 1.
Proof.
  intros Hp.
  assert (Hl : 0 <= Z.log2 (Z.pos p) < 64).
  { split; [apply Z.log2_nonneg | apply Z.log2_lt_pow2; lia]. }
  unfold binary_round, shl_align.
  change (Z.pos (digits2_pos p)) with (Zdigits2 (Z.pos p)).
  rewrite Zdigits2_log2.
  set (e := fexp Double.prec Double.emax (Z.log2 (Z.pos p) + 1 + 0)).
  assert (He : e = Z.log2 (Z.pos p) - 52)
    by (unfold e, fexp, SpecFloat.emin, Double.prec, Double.emax; lia).
  destruct (e - 0) as [| d | d] eqn:Hd.
  - destruct (binary_round_aux_finite sx (Z.pos p) 0 loc_Exact)
      as (m & e' & Hm & Hb); try lia.
    exists m, e'. split; [exact Hm | lia].
  - destruct (binary_round_aux_finite sx (Z.pos p) 0 loc_Exact)
      as (m & e' & Hm & Hb); try lia.
    exists m, e'. split; [exact Hm | lia].
  - assert (Hlog : Z.log2 (Z.pos (Pos.iter xO p d)) =
                   Z.pos d + Z.log2 (Z.pos p))
      by (rewrite iter_xO_pow2; apply Z.log2_mul_pow2; lia).
    destruct (binary_round_aux_finite sx (Z.pos (Pos.iter xO p d)) e
                loc_Exact) as (m & e' & Hm & Hb); try lia.
    exists m, e'. split; [exact Hm | lia].
Qed.

Lemma of_int_finite (z : Z) :
  0 < z < 2 ^ 64 ->
  exists m e,
    Double.of_int z = S754_finite false m e /\
    Z.log2 z <= e + Z.log2 (Z.pos m) <= Z.log2 z + 1.
Proof.
  intros Hz. destruct z as [| p | p]; try lia.
  apply binary_round_finite. lia.
Qed.

Lemma mul_finite (m1 m2 : positive) (e1 e2 : Z) :
  -1074 <= e1 + Z.log2 (Z.pos m1) + (e2 + Z.log2 (Z.pos m2)) ->
  e1 + Z.log2 (Z.pos m1) + (e2 + Z.log2 (Z.pos m2)) <= 969 ->
  exists m e,
    Double.mul (S754_finite false m1 e1) (S754_finite false m2 e2) =
      S754_finite false m e /\
    e1 + Z.log2 (Z.pos m1) + (e2 + Z.log2 (Z.pos m2)) <=
      e + Z.log2 (Z.pos m) <=
      e1 + Z.log2 (Z.pos m1) + (e2 + Z.log2 (Z.pos m2)) + 2.
Proof.
  intros Hlow Hhigh. unfold Double.mul, SFmul. cbn [xorb].
  pose proof (Z.log2_mul_below (Z.pos m1) (Z.pos m2) ltac:(lia) ltac:(lia)).
  pose proof (Z.log2_mul_above (Z.pos m1) (Z.pos m2) ltac:(lia) ltac:(lia)).
  rewrite Pos2Z.inj_mul in *.
  destruct (binary_round_aux_finite false (Z.pos m1 * Z.pos m2) (e1 + e2)
              loc_Exact) as (m & e & Hm & Hb); try lia.
  exists m, e. split; [exact Hm | lia].
Qed.

Lemma log2_div_bounds (a b : Z) :
  0 < b -> b <= a ->
  0 < a / b /\ Z.log2 a - Z.log2 b - 1 <= Z.log2 (a / b) <= Z.log2 a - Z.log2 b.
Proof.
  intros Hb Hab.
  pose proof (Z.log2_nonneg b) as Hlb.
  pose proof (Z.log2_le_mono b a Hab) as Hmono.
  destruct (Z.log2_spec b Hb) as [Hb1 Hb2]. rewrite <- Z.add_1_r in Hb2.
  split; [apply Z.div_str_pos; lia |]. split.
  - transitivity (Z.log2 (Z.shiftr a (Z.log2 b + 1))).
    + rewrite Z.log2_shiftr by lia. lia.
    + apply Z.log2_le_mono. rewrite Z.shiftr_div_pow2 by lia.
      apply Z.div_le_compat_l; lia.
  - transitivity (Z.log2 (Z.shiftr a (Z.log2 b))).
    + apply Z.log2_le_mono. rewrite Z.shiftr_div_pow2 by lia.
      apply Z.div_le_compat_l; lia.
    + rewrite Z.log2_shiftr by lia. lia.
Qed.

Lemma div_finite (m1 m2 : positive) (e1 e2 : Z) :
  -1021 <= e1 + Z.log2 (Z.pos m1) - (e2 + Z.log2 (Z.pos m2)) ->
  e1 + Z.log2 (Z.pos m1) - (e2 + Z.log2 (Z.pos m2)) <= 970 ->
  exists m e,
    Double.div (S754_finite false m1 e1) (S754_finite false m2 e2) =
      S754_finite false m e.
Proof.
  intros Hlow Hhigh. unfold Double.div, SFdiv, SFdiv_core_binary. cbn [xorb].
  rewrite !Zdigits2_log2.
  set (l1 := Z.log2 (Z.pos m1)) in *. set (l2 := Z.log2 (Z.pos m2)) in *.
  set (e' := Z.min (fexp Double.prec Double.emax (l1 + 1 + e1 - (l2 + 1 + e2)))
                   (e1 - e2)).
  assert (He' : e' <= e1 + l1 - (e2 + l2) - 53 /\ e' <= e1 - e2)
    by (unfold e', fexp, SpecFloat.emin, Double.prec, Double.emax; lia).
  set (s := e1 - e2 - e').
  assert (Hs : 0 <= s /\ l2 - l1 + 53 <= s) by (unfold s; lia).
  set (m' := match s with
             | 0 => Z.pos m1
             | Z.pos _ => Z.shiftl (Z.pos m1) s
             | Z.neg _ => 0
             end).
  assert (Hm' : m' = Z.pos m1 * 2 ^ s).
  { unfold m'. destruct s as [| k | k] eqn:Hk; try lia.
    apply Z.shiftl_mul_pow2. lia. }
  assert (Hlog : Z.log2 m' = s + l1)
    by (rewrite Hm'; apply Z.log2_mul_pow2; lia).
  assert (Hle : Z.pos m2 <= m').
  { apply Z.lt_le_incl, Z.log2_lt_cancel. fold l2. lia. }
  pose proof (log2_div_bounds m' (Z.pos m2) ltac:(lia) Hle) as (Hq & Hql).
  fold l2 in Hql. unfold Z.div in Hq, Hql.
  destruct (Z.div_eucl m' (Z.pos m2)) as [q r]. cbn [fst] in Hq, Hql.
  destruct (binary_round_aux_finite false q e'
              (new_location (Z.pos m2) r)) as (m & e & Hm & _);
    try lia.
  exists m, e. exact Hm.
Qed.

(** ** Sequencing *)

Lemma state_of_bind {A B : Type} (m : method A) (k : A -> method B)
    (s : ThreadStats) :
  state_of (bind m k s) = state_of (k (result_of (m s)) (state_of (m s))).
Proof.
  unfold bind. destruct (m s) as [[a s1] o1]. cbn [result_of state_of fst snd].
  destruct (k a s1) as [[b s2] o2]. reflexivity.
Qed.

Lemma written_bind {A B : Type} (m : method A) (k : A -> method B)
    (s : ThreadStats) :
  written (bind m k s) =
  written (m s) ++ written (k (result_of (m s)) (state_of (m s))).
Proof.
  unfold bind. destruct (m s) as [[a s1] o1].
  cbn [result_of state_of written fst snd].
  destruct (k a s1) as [[b s2] o2]. reflexivity.
Qed.

Lemma Updates_cons_written (op_stats : OpStats) (approx_total_done : Z)
    (rest : list (OpStats * Z)) (s : ThreadStats) :
  written (Updates ((op_stats, approx_total_done) :: rest) s) =
  written (Update op_stats approx_total_done s) ++
  written (Updates rest (state_of (Update op_stats approx_total_done s))).
Proof.
  cbn [Updates].
  exact (written_bind (Update op_stats approx_total_done)
           (fun _ => Updates rest) s).
Qed.

Lemma Updates_keep_instants (calls : list (OpStats * Z)) (s : ThreadStats) :
  start_ (state_of (Updates calls s)) = start_ s /\
  finish_ (state_of (Updates calls s)) = finish_ s.
Proof.
  revert s. induction calls as [| [op_stats approx] rest IH]; intros s.
  - split; reflexivity.
  - rewrite Updates_cons. destruct (IH (state_of (Update op_stats approx s)))
      as [Hs Hf].
    rewrite Hs, Hf, Update_run. split; reflexivity.
Qed.

(** ** A worker's run *)

(** X1. However many operations a worker records between [Start] and [Stop],
    and on whatever collector, the start is the reading of the clock at
    [Start] and the finish the reading at [Stop]: [Update] assigns to
    neither. *)
Theorem worker_span (started stopped : Time) (calls : list (OpStats * Z))
    (s0 : ThreadStats) :
  let s := state_of (worker started calls stopped s0) in
  start_ s = started /\ finish_ s = stopped.
Proof.
  cbv zeta. unfold worker. rewrite !state_of_bind.
  unfold Stop, Start, assign. cbn [state_of result_of fst snd].
  destruct (Updates_keep_instants calls (with_start_ started s0)) as [Hs _].
  cbn [with_finish_ start_ finish_]. rewrite Hs. split; reflexivity.
Qed.

(** ** The progress watermark *)

(** X2. Over a run of [Update] calls the watermark rises by 100 for each line
    written.  [Update] writes progress lines to the standard error and
    nothing else, one per call at most, each with the [approx_total_done]
    of its call. *)
Theorem Updates_watermark (calls : list (OpStats * Z)) (s : ThreadStats) :
  INT64_MIN <= next_report_ s ->
  next_report_ s + 100 * Z.of_nat (List.length calls) <= INT64_MAX ->
  let r := Updates calls s in
  next_report_ (state_of r) =
    next_report_ s + 100 * Z.of_nat (List.length (written r)) /\
  (List.length (written r) <= List.length calls)%nat /\
  Forall (fun o => exists c, In c calls /\ o = Stderr (progress_line (snd c)))
         (written r).
Proof.
  revert s. induction calls as [| [op_stats approx] rest IH]; intros s Hlow Hhigh.
  - cbn. split; [lia | split; [lia | constructor]].
  - cbv zeta. rewrite Updates_cons, Updates_cons_written, Update_run.
    cbn [state_of written fst snd].
    cbn [List.length] in Hhigh. rewrite Nat2Z.inj_succ in Hhigh.
    match goal with
    | |- context [Updates rest ?s1] =>
        specialize (IH s1); set (s' := s1) in *
    end.
    assert (Hstep : next_report_ s' =
                    if approx <? next_report_ s then next_report_ s
                    else next_report_ s + 100).
    { unfold s'. cbn [next_report_].
      destruct (approx <? next_report_ s); [reflexivity |].
      apply add_in_range. unfold Int64.in_range. lia. }
    destruct IH as (Hnext & Hlen & Hall).
    { rewrite Hstep. destruct (approx <? next_report_ s); lia. }
    { rewrite Hstep. destruct (approx <? next_report_ s); lia. }
    rewrite Hnext, Hstep, length_app.
    assert (Hrest : Forall
              (fun o => exists c, In c ((op_stats, approx) :: rest) /\
                                  o = Stderr (progress_line (snd c)))
              (written (Updates rest s'))).
    { eapply Forall_impl; [| exact Hall].
      intros o (c & Hc & Ho). exists c. split; [now right | exact Ho]. }
    destruct (approx <? next_report_ s); cbn [List.length app].
    + split; [lia | split; [lia | exact Hrest]].
    + split; [lia | split; [lia |]].
      constructor; [| exact Hrest].
      exists (op_stats, approx). split; [now left | reflexivity].
Qed.

Lemma Updates_watermark_witness :
  let calls := [(op 1 0, 99); (op 1 0, 100); (op 1 0, 150); (op 1 0, 300)] in
  let r := Updates calls ThreadStats_new in
  INT64_MIN <= next_report_ ThreadStats_new /\
  next_report_ ThreadStats_new + 100 * Z.of_nat (List.length calls)
    <= INT64_MAX /\
  next_report_ (state_of r) =
    next_report_ ThreadStats_new + 100 * Z.of_nat (List.length (written r)) /\
  (List.length (written r) <= List.length calls)%nat /\
  Forall (fun o => exists c, In c calls /\ o = Stderr (progress_line (snd c)))
         (written r).
Proof.
  intros calls r.
  assert (H1 : INT64_MIN <= next_report_ ThreadStats_new)
    by (unfold INT64_MIN; simpl; lia).
  assert (H2 : next_report_ ThreadStats_new +
               100 * Z.of_nat (List.length calls) <= INT64_MAX)
    by (unfold INT64_MAX; simpl; lia).
  split; [exact H1 | split; [exact H2 |]].
  exact (Updates_watermark calls ThreadStats_new H1 H2).
Defined.

Lemma counted_step (n : Z) (s : ThreadStats) (op_stats : OpStats) :
  1 <= n -> n + 100 <= INT64_MAX ->
  next_report_ s = 100 * ((n - 1) / 100 + 1) ->
  (n <? next_report_ s) = negb (n mod 100 =? 0) /\
  next_report_ (state_of (Update op_stats n s)) = 100 * (n / 100 + 1).
Proof.
  intros Hn Hmax Hnext. rewrite Update_run. cbn [state_of fst snd next_report_].
  assert (Hcase : (n mod 100 = 0 /\ next_report_ s = n /\
                   100 * (n / 100 + 1) = n + 100) \/
                  (n mod 100 <> 0 /\ n < next_report_ s /\
                   100 * (n / 100 + 1) = next_report_ s)).
  { rewrite Hnext. clear Hnext. Z.div_mod_to_equations. lia. }
  destruct Hcase as [(Hm & He & Hs) | (Hm & Hl & Hs)].
  - replace (n <? next_report_ s) with false by (symmetry; apply Z.ltb_ge; lia).
    rewrite Hm. split; [reflexivity |].
    rewrite add_in_range by (unfold Int64.in_range, INT64_MIN, INT64_MAX in *; lia).
    lia.
  - replace (n <? next_report_ s) with true by (symmetry; apply Z.ltb_lt; lia).
    apply Z.eqb_neq in Hm. rewrite Hm. split; [reflexivity | lia].
Qed.

Lemma Updates_counted (ops : list OpStats) (n : Z) (s : ThreadStats) :
  1 <= n -> n + Z.of_nat (List.length ops) + 100 <= INT64_MAX ->
  next_report_ s = 100 * ((n - 1) / 100 + 1) ->
  written (Updates (counted n ops) s) =
  map (fun c => Stderr (progress_line (snd c)))
      (filter (fun c => snd c mod 100 =? 0) (counted n ops)).
Proof.
  revert n s. induction ops as [| op_stats rest IH]; intros n s Hn Hmax Hnext.
  - reflexivity.
  - cbn [counted List.length] in *. rewrite Nat2Z.inj_succ in Hmax.
    rewrite Updates_cons_written.
    destruct (counted_step n s op_stats Hn ltac:(lia) Hnext) as [Hlt Hnext'].
    rewrite (IH (n + 1) (state_of (Update op_stats n s)))
      by (try lia; rewrite Hnext'; now replace (n + 1 - 1) with n by lia).
    rewrite Update_run. cbn [written snd filter]. rewrite Hlt.
    destruct (n mod 100 =? 0); reflexivity.
Qed.

(** X3. A worker that passes its own count of operations, from 1 on, gets a
    progress line at every hundredth operation and at no other: the step
    of the watermark stays 100 however far the count has come. *)
Theorem Updates_counted_progress (ops : list OpStats) :
  Z.of_nat (List.length ops) + 101 <= INT64_MAX ->
  written (Updates (counted 1 ops) ThreadStats_new) =
  map (fun c => Stderr (progress_line (snd c)))
      (filter (fun c => snd c mod 100 =? 0) (counted 1 ops)).
Proof.
  intros H. apply Updates_counted; [lia | lia | reflexivity].
Qed.

Lemma Updates_counted_progress_witness :
  let ops := repeat (op 1 0) 250 in
  Z.of_nat (List.length ops) + 101 <= INT64_MAX /\
  written (Updates (counted 1 ops) ThreadStats_new) =
    [Stderr (progress_line 100); Stderr (progress_line 200)].
Proof.
  intros ops.
  assert (H : Z.of_nat (List.length ops) + 101 <= INT64_MAX)
    by (vm_compute; discriminate).
  split; [exact H |].
  exact (Updates_counted_progress ops H).
Defined.

(** ** Merging *)

Lemma total_transferred_app (l1 l2 : list (OpStats * Z)) :
  total_transferred (l1 ++ l2) = total_transferred l1 + total_transferred l2.
Proof.
  induction l1 as [| c l1 IH]; [reflexivity |].
  cbn [app total_transferred fold_right] in *.
  fold (total_transferred (l1 ++ l2)). fold (total_transferred l1). lia.
Qed.

Lemma total_elapsed_app (l1 l2 : list (OpStats * Z)) :
  total_elapsed (l1 ++ l2) = total_elapsed l1 + total_elapsed l2.
Proof.
  induction l1 as [| c l1 IH]; [reflexivity |].
  cbn [app total_elapsed fold_right] in *.
  fold (total_elapsed (l1 ++ l2)). fold (total_elapsed l1). lia.
Qed.

(** X4. Two workers' collectors merged count what one collector would have
    counted had it recorded the operations of both: the same operations,
    bytes and busy time, whether or not the counters wrapped. *)
Theorem Merge_of_runs (calls_a calls_b : list (OpStats * Z)) :
  let a := state_of (Updates calls_a ThreadStats_new) in
  let b := state_of (Updates calls_b ThreadStats_new) in
  let merged := state_of (Merge b a) in
  let whole := state_of (Updates (calls_a ++ calls_b) ThreadStats_new) in
  done_ merged = done_ whole /\
  bytes_ merged = bytes_ whole /\
  accumulated_elapsed_time_ merged = accumulated_elapsed_time_ whole.
Proof.
  assert (Hzero : Int64.in_range 0)
    by (unfold Int64.in_range, INT64_MIN, INT64_MAX; lia).
  destruct (Updates_run calls_a ThreadStats_new Hzero Hzero) as (Hda & Hba & Hea).
  destruct (Updates_run calls_b ThreadStats_new Hzero Hzero) as (Hdb & Hbb & Heb).
  destruct (Updates_run (calls_a ++ calls_b) ThreadStats_new Hzero Hzero)
    as (Hd & Hb & He).
  cbv zeta. rewrite Merge_run.
  cbn [state_of fst snd done_ bytes_ accumulated_elapsed_time_].
  rewrite Hda, Hba, Hea, Hdb, Hbb, Heb, Hd, Hb, He.
  rewrite length_app, Nat2Z.inj_add, total_transferred_app, total_elapsed_app.
  unfold Int64.add. rewrite !wrap64_add_l, !wrap64_add_r.
  cbn [ThreadStats_new done_ bytes_ accumulated_elapsed_time_ Nanoseconds].
  repeat split; first [lia | f_equal; lia].
Qed.

(** X5. A collector on which [Start] was never called stands at the Unix
    epoch.  Merged with the collector of a run of our days, in whichever
    direction, it adds nothing to the counters and leaves the finish, but
    the start of the merged run is the epoch, not the start of the run. *)
Theorem Merge_with_new (s : ThreadStats) :
  Int64.in_range (done_ s) -> Int64.in_range (bytes_ s) ->
  UnixEpoch < start_ s -> start_ s <= finish_ s ->
  let into_new := state_of (Merge s ThreadStats_new) in
  let from_new := state_of (Merge ThreadStats_new s) in
  totals into_new =
    (done_ s, bytes_ s, accumulated_elapsed_time_ s, UnixEpoch, finish_ s) /\
  totals from_new = totals into_new /\
  start_ into_new <> start_ s.
Proof.
  intros Hd Hb Hs Hf. cbv zeta. rewrite !Merge_run. unfold totals.
  cbn [state_of fst snd done_ bytes_ accumulated_elapsed_time_ start_ finish_
       ThreadStats_new Nanoseconds].
  unfold Int64.add. rewrite !Z.add_0_l, !Z.add_0_r, !wrap64_in_range by assumption.
  unfold UnixEpoch in *.
  rewrite (Z.min_l 0), (Z.min_r (start_ s)), (Z.max_r 0), (Z.max_l (finish_ s))
    by lia.
  repeat split. lia.
Qed.

Lemma Merge_with_new_witness :
  Int64.in_range (done_ collector_a) /\ Int64.in_range (bytes_ collector_a) /\
  UnixEpoch < start_ collector_a /\ start_ collector_a <= finish_ collector_a /\
  totals (state_of (Merge collector_a ThreadStats_new)) =
    (5, 500, Microseconds 50, UnixEpoch, Seconds 12).
Proof.
  assert (H1 : Int64.in_range (done_ collector_a))
    by (unfold Int64.in_range, INT64_MIN, INT64_MAX; simpl; lia).
  assert (H2 : Int64.in_range (bytes_ collector_a))
    by (unfold Int64.in_range, INT64_MIN, INT64_MAX; simpl; lia).
  assert (H3 : UnixEpoch < start_ collector_a) by reflexivity.
  assert (H4 : start_ collector_a <= finish_ collector_a)
    by (vm_compute; discriminate).
  repeat (split; [assumption |]).
  exact (proj1 (Merge_with_new collector_a H1 H2 H3 H4)).
Defined.

(** X6. If no collector of a reduction finishes before it starts, neither
    does the outcome, and its span covers the span of every one of them. *)
Theorem outcome_span (r : reduction) :
  Forall timed (collectors r) ->
  timed (outcome r) /\
  Forall (fun s => start_ (outcome r) <= start_ s /\
                   finish_ s <= finish_ (outcome r)) (collectors r).
Proof.
  induction r as [s | a IHa b IHb]; cbn [collectors outcome]; intros H.
  - apply Forall_inv in H. split; [exact H |]. constructor; [lia | constructor].
  - apply Forall_app in H. destruct H as [Ha Hb].
    destruct (IHa Ha) as [Hta Hca]. destruct (IHb Hb) as [Htb Hcb].
    rewrite Merge_run. unfold timed in *. cbn [state_of fst snd start_ finish_].
    split; [lia |]. apply Forall_app. split.
    + eapply Forall_impl; [| exact Hca]. cbv beta. intros s Hs. lia.
    + eapply Forall_impl; [| exact Hcb]. cbv beta. intros s Hs. lia.
Qed.

Lemma outcome_span_witness :
  let r := Merged (Collector collector_a)
                  (Merged (Collector collector_b) (Collector collector_c)) in
  Forall timed (collectors r) /\
  timed (outcome r) /\
  Forall (fun s => start_ (outcome r) <= start_ s /\
                   finish_ s <= finish_ (outcome r)) (collectors r).
Proof.
  intros r.
  assert (H : Forall timed (collectors r))
    by (repeat constructor; vm_compute; discriminate).
  split; [exact H | exact (outcome_span r H)].
Defined.

(** ** Reports *)

Lemma Report_of_totals (specification : string) (w : WorkloadConfigResult)
    (s1 s2 : ThreadStats) :
  totals s1 = totals s2 ->
  result_of (Report specification w s1) = result_of (Report specification w s2)
  /\ written (Report specification w s1) = written (Report specification w s2).
Proof.
  unfold totals. intros H. injection H as Hd Hb He Hs Hf.
  destruct (Z.eq_dec (done_ s1) 0) as [Hz | Hnz].
  - rewrite !Report_run_never by congruence. split; reflexivity.
  - rewrite !Report_run by congruence. rewrite Hd, Hb, He, Hs, Hf.
    destruct (0 <? bytes_ s2); split; reflexivity.
Qed.

(** X7. The report of a merged run is the same in whatever order and grouping
    the collectors were merged: the summary gets the same two numbers and
    the same line is printed. *)
Theorem Report_any_order (specification : string) (w : WorkloadConfigResult)
    (r1 r2 : reduction) :
  Permutation (collectors r1) (collectors r2) ->
  result_of (Report specification w (outcome r1)) =
    result_of (Report specification w (outcome r2)) /\
  written (Report specification w (outcome r1)) =
    written (Report specification w (outcome r2)).
Proof.
  intros H. apply Report_of_totals.
  apply (Permutation_map totals) in H.
  apply (reduce_Permutation _ merge_totals merge_totals_comm
           merge_totals_assoc) in H.
  rewrite !totals_outcome in H. congruence.
Qed.

Lemma Report_any_order_witness :
  let r1 := Merged (Collector collector_a) (Collector collector_b) in
  let r2 := Merged (Collector collector_b) (Collector collector_a) in
  Permutation (collectors r1) (collectors r2) /\
  result_of (Report "fill" unset (outcome r1)) =
    result_of (Report "fill" unset (outcome r2)) /\
  written (Report "fill" unset (outcome r1)) =
    written (Report "fill" unset (outcome r2)).
Proof.
  intros r1 r2.
  assert (H : Permutation (collectors r1) (collectors r2))
    by apply perm_swap.
  split; [exact H | exact (Report_any_order "fill" unset r1 r2 H)].
Defined.

Lemma IDivDuration_span (start finish : Time) :
  start + Microseconds 1 <= finish ->
  1 <= IDivDuration (since finish start) (Microseconds 1) <= INT64_MAX.
Proof.
  unfold IDivDuration, since, Microseconds, kTicksPerNanosecond. intros H.
  replace (1 * (1000 * 4) =? 0) with false by reflexivity.
  rewrite Z.quot_div_nonneg by lia.
  assert (1 <= (finish - start) / (1 * (1000 * 4)))
    by (apply Z.div_le_lower_bound; lia).
  unfold sat64, INT64_MIN, INT64_MAX. lia.
Qed.

(** X8. On a collector with bytes recorded and a finish not before its start,
    the rate is [+inf] exactly when the run was shorter than a
    microsecond; from a microsecond on it is a finite number above
    zero. *)
Theorem Report_rate_finite (specification : string)
    (w : WorkloadConfigResult) (s : ThreadStats) :
  0 < done_ s -> 0 < bytes_ s <= INT64_MAX -> start_ s <= finish_ s ->
  let rate := bytes_per_second (result_of (Report specification w s)) in
  (rate = Double.pos_infinity <-> finish_ s < start_ s + Microseconds 1) /\
  (start_ s + Microseconds 1 <= finish_ s ->
   exists m e, rate = S754_finite false m e).
Proof.
  intros Hdone Hbytes Hspan.
  assert (Hfinite : start_ s + Microseconds 1 <= finish_ s ->
            exists m e,
              bytes_per_second (result_of (Report specification w s)) =
              S754_finite false m e).
  { intros Hlong. rewrite Report_run by lia.
    replace (0 <? bytes_ s) with true by (symmetry; apply Z.ltb_lt; lia).
    cbn [result_of fst bytes_per_second].
    pose proof (IDivDuration_span (start_ s) (finish_ s) Hlong) as Hq.
    set (q := IDivDuration (since (finish_ s) (start_ s)) (Microseconds 1)) in *.
    unfold INT64_MAX in *.
    destruct (of_int_finite q ltac:(lia)) as (mq & eq & -> & Hbq).
    destruct (of_int_finite (bytes_ s) ltac:(lia)) as (mb & eb & -> & Hbb).
    assert (Hlq : 0 <= Z.log2 q < 63)
      by (split; [apply Z.log2_nonneg | apply Z.log2_lt_pow2; lia]).
    assert (Hlb : 0 <= Z.log2 (bytes_ s) < 63)
      by (split; [apply Z.log2_nonneg | apply Z.log2_lt_pow2; lia]).
    assert (Hmicro : Z.log2 4722366482869645 = 52) by reflexivity.
    unfold Double.micro.
    destruct (mul_finite mq 4722366482869645 eq (-72))
      as (ms & es & -> & Hbs); try lia.
    apply div_finite; lia. }
  cbv zeta. split; [| exact Hfinite]. split.
  - intros Hinf. destruct (Z.lt_ge_cases (finish_ s) (start_ s + Microseconds 1))
      as [Hlt | Hge]; [exact Hlt |].
    destruct (Hfinite Hge) as (m & e & Hm). rewrite Hm in Hinf. discriminate.
  - intros Hshort. apply Report_short_run; lia.
Qed.

Lemma Report_rate_finite_witness :
  0 < done_ one_mebibyte /\ 0 < bytes_ one_mebibyte <= INT64_MAX /\
  start_ one_mebibyte <= finish_ one_mebibyte /\
  (bytes_per_second (result_of (Report "fill" unset one_mebibyte)) =
     Double.pos_infinity <->
   finish_ one_mebibyte < start_ one_mebibyte + Microseconds 1).
Proof.
  assert (H1 : 0 < done_ one_mebibyte) by reflexivity.
  assert (H2 : 0 < bytes_ one_mebibyte <= INT64_MAX)
    by (split; [reflexivity | vm_compute; discriminate]).
  assert (H3 : start_ one_mebibyte <= finish_ one_mebibyte)
    by (vm_compute; discriminate).
  repeat (split; [assumption |]).
  exact (proj1 (Report_rate_finite "fill" unset one_mebibyte H1 H2 H3)).
Defined.

Lemma of_int_in_range_finite (z : Z) :
  Int64.in_range z -> finite_double (Double.of_int z) = true.
Proof.
  unfold Int64.in_range, INT64_MIN, INT64_MAX. intros H.
  destruct z as [| p | p].
  - reflexivity.
  - destruct (of_int_finite (Z.pos p) ltac:(lia)) as (m & e & -> & _).
    reflexivity.
  - unfold Double.of_int, binary_normalize.
    destruct (binary_round_finite true p ltac:(lia)) as (m & e & -> & _).
    reflexivity.
Qed.

(** X9. Whenever [Report] sets the average it sets it to a number: the
    microseconds per operation are never an infinity or a NaN. *)
Theorem Report_average_finite (specification : string)
    (w : WorkloadConfigResult) (s : ThreadStats) :
  done_ s <> 0 ->
  finite_double
    (microseconds_per_operation (result_of (Report specification w s))) = true.
Proof.
  intros H. rewrite Report_run by assumption.
  destruct (0 <? bytes_ s); cbn [result_of fst microseconds_per_operation];
    apply of_int_in_range_finite, wrap64_range.
Qed.

Lemma Report_average_finite_witness :
  done_ two_ops <> 0 /\
  finite_double
    (microseconds_per_operation (result_of (Report "fill" unset two_ops))) =
    true.
Proof.
  assert (H : done_ two_ops <> 0) by (vm_compute; discriminate).
  split; [exact H | exact (Report_average_finite "fill" unset two_ops H)].
Defined.

Lemma Report_average_quotient_witness :
  0 < done_ two_ops /\ 0 <= accumulated_elapsed_time_ two_ops /\
  accumulated_elapsed_time_ two_ops / Microseconds 1 <= INT64_MAX /\
  microseconds_per_operation (result_of (Report "fill" unset two_ops)) =
    Double.of_int (3 / 2).
Proof.
  assert (H1 : 0 < done_ two_ops) by reflexivity.
  assert (H2 : 0 <= accumulated_elapsed_time_ two_ops)
    by (vm_compute; discriminate).
  assert (H3 : accumulated_elapsed_time_ two_ops / Microseconds 1 <= INT64_MAX)
    by (vm_compute; discriminate).
  repeat (split; [assumption |]).
  exact (Report_average_quotient "fill" unset two_ops H1 H2 H3).
Defined.

Lemma list_sum_Z_app (l1 l2 : list Z) :
  list_sum_Z (l1 ++ l2) = list_sum_Z l1 + list_sum_Z l2.
Proof.
  induction l1 as [| x l1 IH]; [reflexivity |].
  cbn [app list_sum_Z fold_right] in *. fold (list_sum_Z (l1 ++ l2)).
  fold (list_sum_Z l1). lia.
Qed.

(** ** More on the watermark and on merging *)

(** X11. When the count the caller passes is ahead of the watermark by 100 for
    every call still to come, as the count of many workers is for the
    collector of one, every call writes a line. *)
Theorem Updates_behind (calls : list (OpStats * Z)) (s : ThreadStats) :
  INT64_MIN <= next_report_ s ->
  next_report_ s + 100 * Z.of_nat (List.length calls) <= INT64_MAX ->
  Forall (fun c => next_report_ s + 100 * Z.of_nat (List.length calls) <= snd c)
         calls ->
  written (Updates calls s) =
  map (fun c => Stderr (progress_line (snd c))) calls.
Proof.
  revert s. induction calls as [| [op_stats approx] rest IH];
    intros s Hlow Hhigh Hall.
  - reflexivity.
  - rewrite Updates_cons_written, Update_run.
    cbn [state_of written fst snd map].
    cbn [List.length] in Hhigh, Hall. rewrite Nat2Z.inj_succ in Hhigh, Hall.
    inversion Hall as [| c l Hc Hrest]; subst. cbn [snd] in Hc.
    pose proof (Zle_0_nat (List.length rest)).
    replace (approx <? next_report_ s) with false
      by (symmetry; apply Z.ltb_ge; lia).
    rewrite (add_in_range (next_report_ s) 100)
      by (unfold Int64.in_range; lia).
    cbn [app]. f_equal. apply IH; cbn [next_report_]; try lia.
    eapply Forall_impl; [| exact Hrest]. cbv beta. intros c Hc'. lia.
Qed.

Lemma Updates_behind_witness :
  let calls := [(op 1 0, 1000); (op 1 0, 1004); (op 1 0, 1008)] in
  INT64_MIN <= next_report_ ThreadStats_new /\
  next_report_ ThreadStats_new + 100 * Z.of_nat (List.length calls)
    <= INT64_MAX /\
  Forall (fun c => next_report_ ThreadStats_new +
                   100 * Z.of_nat (List.length calls) <= snd c) calls /\
  written (Updates calls ThreadStats_new) =
    [Stderr (progress_line 1000); Stderr (progress_line 1004);
     Stderr (progress_line 1008)].
Proof.
  intros calls.
  assert (H1 : INT64_MIN <= next_report_ ThreadStats_new)
    by (vm_compute; discriminate).
  assert (H2 : next_report_ ThreadStats_new +
               100 * Z.of_nat (List.length calls) <= INT64_MAX)
    by (vm_compute; discriminate).
  assert (H3 : Forall (fun c => next_report_ ThreadStats_new +
                 100 * Z.of_nat (List.length calls) <= snd c) calls)
    by (repeat constructor; vm_compute; discriminate).
  repeat (split; [assumption |]).
  exact (Updates_behind calls ThreadStats_new H1 H2 H3).
Defined.

Lemma outcome_wrapped (r : reduction) :
  Forall (fun s => Int64.in_range (done_ s) /\ Int64.in_range (bytes_ s))
         (collectors r) ->
  done_ (outcome r) = wrap64 (list_sum_Z (map done_ (collectors r))) /\
  bytes_ (outcome r) = wrap64 (list_sum_Z (map bytes_ (collectors r))) /\
  accumulated_elapsed_time_ (outcome r) =
    list_sum_Z (map accumulated_elapsed_time_ (collectors r)).
Proof.
  induction r as [s | a IHa b IHb]; cbn [collectors outcome]; intros H.
  - apply Forall_inv in H. destruct H as [Hd Hb].
    cbn [map list_sum_Z fold_right]. rewrite !Z.add_0_r.
    rewrite !wrap64_in_range by assumption. auto.
  - apply Forall_app in H. destruct H as [Ha Hb].
    destruct (IHa Ha) as (Hda & Hba & Hea).
    destruct (IHb Hb) as (Hdb & Hbb & Heb).
    rewrite Merge_run.
    cbn [state_of fst snd done_ bytes_ accumulated_elapsed_time_].
    rewrite Hda, Hba, Hea, Hdb, Hbb, Heb, !map_app, !list_sum_Z_app.
    unfold Int64.add. rewrite !wrap64_add_l, !wrap64_add_r. auto.
Qed.

(** X12. However the collectors of the workers are merged, nothing is dropped:
    the outcome has the sum of the operations, of the bytes and of the busy
    time of all of them, the two integer sums being ones an [int64]
    holds. *)
Theorem outcome_sums (r : reduction) :
  Forall (fun s => Int64.in_range (done_ s) /\ Int64.in_range (bytes_ s))
         (collectors r) ->
  Int64.in_range (list_sum_Z (map done_ (collectors r))) ->
  Int64.in_range (list_sum_Z (map bytes_ (collectors r))) ->
  done_ (outcome r) = list_sum_Z (map done_ (collectors r)) /\
  bytes_ (outcome r) = list_sum_Z (map bytes_ (collectors r)) /\
  accumulated_elapsed_time_ (outcome r) =
    list_sum_Z (map accumulated_elapsed_time_ (collectors r)).
Proof.
  intros H Hd Hb. destruct (outcome_wrapped r H) as (H1 & H2 & H3).
  rewrite H1, H2, H3, !wrap64_in_range by assumption. auto.
Qed.

Lemma outcome_sums_witness :
  let r := Merged (Merged (Collector collector_a) (Collector collector_b))
                  (Collector collector_c) in
  Forall (fun s => Int64.in_range (done_ s) /\ Int64.in_range (bytes_ s))
         (collectors r) /\
  Int64.in_range (list_sum_Z (map done_ (collectors r))) /\
  Int64.in_range (list_sum_Z (map bytes_ (collectors r))) /\
  done_ (outcome r) = 15 /\ bytes_ (outcome r) = 800 /\
  accumulated_elapsed_time_ (outcome r) = Microseconds 150.
Proof.
  intros r.
  assert (Hr : forall z, - 1000 <= z <= 1000 -> Int64.in_range z)
    by (unfold Int64.in_range, INT64_MIN, INT64_MAX; lia).
  assert (H1 : Forall (fun s => Int64.in_range (done_ s) /\
                                Int64.in_range (bytes_ s)) (collectors r))
    by (repeat constructor; apply Hr; simpl; lia).
  assert (H2 : Int64.in_range (list_sum_Z (map done_ (collectors r))))
    by (apply Hr; simpl; lia).
  assert (H3 : Int64.in_range (list_sum_Z (map bytes_ (collectors r))))
    by (apply Hr; simpl; lia).
  repeat (split; [assumption |]).
  exact (outcome_sums r H1 H2 H3).
Defined.

(** ** The rate and the whole microseconds *)

(** A run of 1999 nanoseconds that moved one byte: the bytes over the span
    in seconds are about 500250, between 500250 and 500251, and [Report]
    stores 1000000, the bytes over the one whole microsecond of the span.
    The rate is not the bytes over the span as it is. *)
Lemma Report_rate_not_over_span :
  0 < done_ brief_run /\ 0 < bytes_ brief_run /\
  start_ brief_run < finish_ brief_run /\
  bytes_per_second (result_of (Report "fill" unset brief_run)) =
    Double.of_int 1000000 /\
  bytes_per_second (result_of (Report "fill" unset brief_run)) <>
    span_rate (bytes_ brief_run) (start_ brief_run) (finish_ brief_run) /\
  500250 * since (finish_ brief_run) (start_ brief_run)
    < bytes_ brief_run * Seconds 1
    < 500251 * since (finish_ brief_run) (start_ brief_run).
Proof.
  repeat split; try reflexivity. vm_compute. discriminate.
Qed.

(** A rate over at least one whole microsecond, of a number of bytes that
    an [int64] holds, is a finite number above zero. *)
Lemma rate_finite (total_bytes microseconds : Z) :
  0 < total_bytes <= INT64_MAX -> 1 <= microseconds <= INT64_MAX ->
  exists m e,
    Double.div (Double.of_int total_bytes)
               (Double.mul (Double.of_int microseconds) Double.micro) =
    S754_finite false m e.
Proof.
  unfold INT64_MAX. intros Hb Hq.
  destruct (of_int_finite microseconds ltac:(lia)) as (mq & eq & -> & Hbq).
  destruct (of_int_finite total_bytes ltac:(lia)) as (mb & eb & -> & Hbb).
  assert (Hlq : 0 <= Z.log2 microseconds < 63)
    by (split; [apply Z.log2_nonneg | apply Z.log2_lt_pow2; lia]).
  assert (Hlb : 0 <= Z.log2 total_bytes < 63)
    by (split; [apply Z.log2_nonneg | apply Z.log2_lt_pow2; lia]).
  assert (Hmicro : Z.log2 4722366482869645 = 52) by reflexivity.
  unfold Double.micro.
  destruct (mul_finite mq 4722366482869645 eq (-72))
    as (ms & es & -> & Hbs); try lia.
  apply div_finite; lia.
Qed.

(** The quotient of a span by a microsecond is its whole microseconds. *)
Lemma IDivDuration_whole_microseconds (start finish : Time) :
  start <= finish -> whole_microseconds start finish <= INT64_MAX ->
  IDivDuration (since finish start) (Microseconds 1) =
  whole_microseconds start finish.
Proof.
  unfold IDivDuration, whole_microseconds, since, Microseconds,
    kTicksPerNanosecond. intros Hspan Hfits.
  replace (1 * (1000 * 4) =? 0) with false by reflexivity.
  rewrite Z.quot_div_nonneg by lia.
  assert (0 <= (finish - start) / (1 * (1000 * 4)))
    by (apply Z.div_pos; lia).
  unfold sat64, INT64_MIN, INT64_MAX in *. lia.
Qed.

(** C4, as amended. On a collector with operations and bytes recorded and
    a finish at least a microsecond after its start, [bytes_per_second] is
    the bytes divided by the span from start to finish cut down to whole
    microseconds and expressed in seconds (the whole microseconds times
    [1e-6]).  It is a finite number above zero, and the accumulated busy
    time has no part in it.  The bytes and the whole microseconds are ones
    an [int64] holds. *)
Theorem Report_rate_over_whole_microseconds (specification : string)
    (w : WorkloadConfigResult) (s : ThreadStats) :
  0 < done_ s -> 0 < bytes_ s <= INT64_MAX ->
  start_ s + Microseconds 1 <= finish_ s ->
  whole_microseconds (start_ s) (finish_ s) <= INT64_MAX ->
  let rate := bytes_per_second (result_of (Report specification w s)) in
  rate = whole_microsecond_rate (bytes_ s) (start_ s) (finish_ s) /\
  (exists m e, rate = S754_finite false m e) /\
  forall busy : Duration,
    bytes_per_second
      (result_of (Report specification w
                    (with_accumulated_elapsed_time_ busy s))) = rate.
Proof.
  intros Hdone Hbytes Hspan Hfits.
  assert (Hpos : 0 < Microseconds 1) by reflexivity.
  assert (Hrate : forall s', 0 < done_ s' -> bytes_ s' = bytes_ s ->
            start_ s' = start_ s -> finish_ s' = finish_ s ->
            bytes_per_second (result_of (Report specification w s')) =
            whole_microsecond_rate (bytes_ s) (start_ s) (finish_ s)).
  { intros s' Hd Hb Hs Hf. rewrite Report_run by lia.
    rewrite Hb, Hs, Hf.
    replace (0 <? bytes_ s) with true by (symmetry; apply Z.ltb_lt; lia).
    cbn [result_of fst bytes_per_second].
    rewrite IDivDuration_whole_microseconds by (assumption || lia).
    reflexivity. }
  cbv zeta. rewrite (Hrate s Hdone eq_refl eq_refl eq_refl).
  split; [reflexivity |]. split.
  - apply rate_finite; [assumption |].
    split; [| assumption].
    unfold whole_microseconds. apply Z.div_le_lower_bound; lia.
  - intros busy. apply Hrate; [exact Hdone | reflexivity ..].
Qed.

Lemma Report_rate_over_whole_microseconds_witness :
  0 < done_ one_mebibyte /\ 0 < bytes_ one_mebibyte <= INT64_MAX /\
  start_ one_mebibyte + Microseconds 1 <= finish_ one_mebibyte /\
  whole_microseconds (start_ one_mebibyte) (finish_ one_mebibyte)
    <= INT64_MAX /\
  bytes_per_second (result_of (Report "fill" unset one_mebibyte)) =
    whole_microsecond_rate 1048576 (Seconds 10) (Seconds 11).
Proof.
  assert (H1 : 0 < done_ one_mebibyte) by reflexivity.
  assert (H2 : 0 < bytes_ one_mebibyte <= INT64_MAX)
    by (split; [reflexivity | vm_compute; discriminate]).
  assert (H3 : start_ one_mebibyte + Microseconds 1 <= finish_ one_mebibyte)
    by (vm_compute; discriminate).
  assert (H4 : whole_microseconds (start_ one_mebibyte) (finish_ one_mebibyte)
               <= INT64_MAX)
    by (vm_compute; discriminate).
  repeat (split; [assumption |]).
  exact (proj1 (Report_rate_over_whole_microseconds "fill" unset one_mebibyte
                  H1 H2 H3 H4)).
Defined.

(** On the run of one second the two rates are the same number. *)
Example one_mebibyte_rates :
  whole_microsecond_rate 1048576 (Seconds 10) (Seconds 11) =
    Double.of_int 1048576 /\
  span_rate 1048576 (Seconds 10) (Seconds 11) = Double.of_int 1048576.
Proof. split; reflexivity. Qed.
